(** * Quiz-authoring backend: response normaliser, attempt merge engine,
      allow-list check and chat store

    A shallow embedding of the Express handlers of the server module
    (parseJsonLenient, POST /api/parse-image, POST /api/parse-pdf,
    GET /api/quizzes/:id, POST /api/attempts, POST /api/chats) together with
    the part of the JavaScript runtime they rely on.

    Conventions.
    - A JavaScript string is the list of its UTF-16 code units.
    - A JSON value is a tree; [undefined] is the absence of a value
      ([None] of an option).
    - An object is a finite map from its own property names to values.
      The handlers read the fixed names that occur in the source, none
      of which a prototype defines; an assignment under the name
      __proto__ reaches the accessor of Object.prototype and defines no
      member.
    - Numbers are carried around, tested for zero, cast and printed,
      never computed with; the model keeps the integers, an integer
      standing for the double nearest to it.
    - A collection of the document store is a finite map from the unique
      [id] of its documents to the documents: findOne is a lookup, an
      upsert casts the defined paths of the update by the schema, sets
      them in the stored document (or in a new one, with the defaults of
      the schema) and returns the result.  The paths the store fills on
      its own account (_id, __v, updatedAt) are left out; the clock is
      an input. *)

From Stdlib Require Import ZArith NArith List String Ascii.
From Stdlib Require QArith.
From stdpp Require Import gmap strings list fin_maps.

Set Warnings "-register-all,-abstract-large-number".

(* ================================================================== *)
(** ** The runtime: strings, values, coercions                         *)
(* ================================================================== *)

Module Js.

(** A string as its UTF-16 code units. *)
Abbreviation jstring := (list N).

(** Source literals are ASCII: one code unit per character. *)
Definition js (s : string) : jstring :=
  List.map N_of_ascii (list_ascii_of_string s).

(** The same, with every apostrophe of the literal standing for a double
    quote: JSON texts and prompts that contain quotation marks. *)
Definition jsq (s : string) : jstring :=
  List.map (fun c => if (c =? 39)%N then 34%N else c) (js s).

Inductive jsval : Type :=
| JNull
| JBool (b : bool)
| JNum (n : Z)
| JStr (s : jstring)
| JArr (l : list jsval)
| JObj (m : gmap jstring jsval).

(** What a [throw] carries; the handlers only ever read [err.message]. *)
Inductive exn : Type :=
| Error (message : jstring).

Definition message (e : exn) : jstring :=
  match e with Error m => m end.

Inductive result (A : Type) : Type :=
| Ok (a : A)
| Throw (e : exn).
Arguments Ok {A} a.
Arguments Throw {A} e.

Definition rbind {A B : Type} (r : result A) (k : A -> result B) : result B :=
  match r with
  | Ok a => k a
  | Throw e => Throw e
  end.

(** [!!v] of the language: null, false, 0 and the empty string are falsy. *)
Definition truthy (v : jsval) : bool :=
  match v with
  | JNull => false
  | JBool b => b
  | JNum n => negb (n =? 0)%Z
  | JStr s => match s with [] => false | _ => true end
  | JArr _ | JObj _ => true
  end.

(** Truthiness of a possibly undefined value. *)
Definition truthy_opt (o : option jsval) : bool :=
  match o with
  | Some v => truthy v
  | None => false
  end.

(** [a || b]. *)
Definition js_or (a b : option jsval) : option jsval :=
  if truthy_opt a then a else b.

Inductive jstype : Type :=
| TUndefined | TObject | TBoolean | TNumber | TString.

(** The [typeof] operator: null and arrays are of type object. *)
Definition typeof (o : option jsval) : jstype :=
  match o with
  | None => TUndefined
  | Some JNull => TObject
  | Some (JBool _) => TBoolean
  | Some (JNum _) => TNumber
  | Some (JStr _) => TString
  | Some (JArr _) => TObject
  | Some (JObj _) => TObject
  end.

Definition is_object (o : option jsval) : bool :=
  match typeof o with TObject => true | _ => false end.

(** WhiteSpace and LineTerminator code units: what [trim] removes and what
    [\s] matches. *)
Definition is_space (c : N) : bool :=
  ((9 <=? c) && (c <=? 13) || (c =? 32) || (c =? 160) || (c =? 5760)
   || (8192 <=? c) && (c <=? 8202) || (c =? 8232) || (c =? 8233)
   || (c =? 8239) || (c =? 8287) || (c =? 12288) || (c =? 65279))%N.

Fixpoint trimStart (s : jstring) : jstring :=
  match s with
  | c :: r => if is_space c then trimStart r else s
  | [] => []
  end.

Definition trim (s : jstring) : jstring :=
  rev (trimStart (rev (trimStart s))).

(** [s.trim() === ''] *)
Definition blank (s : jstring) : bool :=
  forallb is_space s.

(** The class [\d]. *)
Definition is_digit (c : N) : bool := ((48 <=? c) && (c <=? 57))%N.

(** Digits of a natural number in a radix up to 36, most significant
    first ([Number.prototype.toString(radix)] on a non-negative integer). *)
Definition digit (d : N) : N :=
  if (d <? 10)%N then (48 + d)%N else (87 + d)%N.

Fixpoint digits (fuel : nat) (radix n : N) (acc : jstring) : jstring :=
  match fuel with
  | O => acc
  | S fuel' =>
      let acc' := digit (n mod radix) :: acc in
      if (n <? radix)%N then acc' else digits fuel' radix (n / radix) acc'
  end.

Definition N_toString (radix n : N) : jstring :=
  digits (S (N.to_nat (N.log2 n))) radix n [].

(** The Number value for a natural number: the nearest double, which has
    53 significant bits, ties going to the even significand; [None] past
    the largest double, where the value is Infinity. *)
Definition to_double (m : N) : option N :=
  let excess := (N.size m - 53)%N in
  let q := N.shiftr m excess in
  let r := N.land m (N.ones excess) in
  let half := N.shiftl 1 (excess - 1) in
  let q' :=
    if (r <? half)%N then q
    else if (half <? r)%N then N.succ q
    else if N.even q then q else N.succ q in
  let x := N.shiftl q' excess in
  if (x <? 2 ^ 1024)%N then Some x else None.

(** The shortest decimal that still reads as the double [x]: the
    multiple of 10^e next to [x] on either side, for the largest [e] for
    which one of the two has [x] as its Number value; of two that do,
    the one closer to [x], and the one with the even last digit when
    both are as close. *)
Fixpoint shortest (e : nat) (x : N) : N :=
  match e with
  | O => x
  | S e' =>
      let p := (10 ^ N.of_nat e)%N in
      let lo := (x / p * p)%N in
      let hi := (lo + p)%N in
      match bool_decide (to_double lo = Some x),
            bool_decide (to_double hi = Some x) with
      | true, true =>
          if (x - lo <? hi - x)%N then lo
          else if (hi - x <? x - lo)%N then hi
          else if N.even (x / p) then lo else hi
      | true, false => lo
      | false, true => hi
      | false, false => shortest e' x
      end
  end.

Fixpoint strip_zeros (rev_digits : jstring) : jstring :=
  match rev_digits with
  | 48%N :: r => strip_zeros r
  | _ => rev_digits
  end.

(** Number::toString for a positive double that is an integer: its
    shortest decimal, written out in full below 10^21 and as d.ddde+n
    from there on. *)
Definition double_toString (x : N) : jstring :=
  let all := N_toString 10 x in
  let v := N_toString 10 (shortest (length all - 1) x) in
  if (length v <=? 21)%nat then v
  else
    let exponent :=
      101%N :: 43%N :: N_toString 10 (N.of_nat (length v - 1)) in
    match rev (strip_zeros (rev v)) with
    | [d] => d :: exponent
    | d :: ds => d :: 46%N :: ds ++ exponent
    | [] => v
    end.

Definition N_print (m : N) : jstring :=
  match m with
  | N0 => [48%N]
  | _ =>
      match to_double m with
      | Some x => double_toString x
      | None => js "Infinity"
      end
  end.

(** What the language prints for the number an integer stands for. *)
Definition Number_toString (n : Z) : jstring :=
  match n with
  | Zneg p => 45%N :: N_print (Npos p)
  | _ => N_print (Z.to_N n)
  end.

(** Own enumerable properties, by name: the members of an object, the
    indices of an array, the indices of a string.  [Object.keys] ranges
    over the domain of this map. *)
Fixpoint indexed {A : Type} (i : N) (l : list A) : list (jstring * A) :=
  match l with
  | [] => []
  | x :: r => (N_toString 10 i, x) :: indexed (N.succ i) r
  end.

Definition entries (v : jsval) : gmap jstring jsval :=
  match v with
  | JObj m => m
  | JArr l => list_to_map (indexed 0 l)
  | JStr s => list_to_map (indexed 0 (List.map (fun c => JStr [c]) s))
  | _ => ∅
  end.

(** [v.k] for a receiver that is neither null nor undefined and a name
    that no prototype defines. *)
Definition get (v : jsval) (k : jstring) : option jsval :=
  entries v !! k.

(** [v.k] where [v] itself may be undefined or null: reading a property
    of those throws a TypeError. *)
Definition get_checked (v : jsval) (k : jstring) : result (option jsval) :=
  match v with
  | JNull =>
      Throw (Error (js "Cannot read properties of null (reading '" ++ k ++ js "')"))
  | _ => Ok (get v k)
  end.

(** [v.k = x]: defines or overwrites a member of an object.  On a
    primitive receiver the assignment is dropped (sloppy mode); an array
    receiver keeps its elements, which is all a JSON reply shows of it. *)
Definition set (v : jsval) (k : jstring) (x : jsval) : jsval :=
  match v with
  | JObj m => JObj (<[k := x]> m)
  | _ => v
  end.

(** [Object.keys(src).forEach(k => body(k, src[k]))] over an accumulator. *)
Definition forEach_key {B : Type} (src : gmap jstring jsval)
    (body : jstring -> jsval -> B -> B) (acc : B) : B :=
  map_fold body acc src.

(** [o[k] = v] on an ordinary object: the name __proto__ reaches the
    setter of Object.prototype and defines no member of [o]. *)
Definition put (k : jstring) (v : jsval) (o : gmap jstring jsval)
    : gmap jstring jsval :=
  if decide (k = js "__proto__") then o else <[k := v]> o.

(** [Object.assign(target, src)] *)
Definition assign (target src : gmap jstring jsval) : gmap jstring jsval :=
  forEach_key src put target.

(** ToString of a JSON value, as a template literal applies it.  An
    object prints through [Object.prototype.toString] unless it has a
    member named toString of its own, which is data and cannot be
    called; an array joins the strings of its elements, null printing
    as nothing. *)
Fixpoint ToString (v : jsval) : result jstring :=
  match v with
  | JNull => Ok (js "null")
  | JBool true => Ok (js "true")
  | JBool false => Ok (js "false")
  | JNum n => Ok (Number_toString n)
  | JStr s => Ok s
  | JArr l =>
      (fix join (l : list jsval) : result jstring :=
         match l with
         | [] => Ok []
         | x :: r =>
             rbind (match x with JNull => Ok [] | _ => ToString x end) (fun s =>
             match r with
             | [] => Ok s
             | _ => rbind (join r) (fun t => Ok (s ++ 44%N :: t))
             end)
         end) l
  | JObj m =>
      match m !! js "toString" with
      | None => Ok (js "[object Object]")
      | Some _ => Throw (Error (js "Cannot convert object to primitive value"))
      end
  end.

(** ToString of a possibly undefined value. *)
Definition ToString_opt (o : option jsval) : result jstring :=
  match o with
  | None => Ok (js "undefined")
  | Some v => ToString v
  end.

(** ASCII case folding, the only folding a case-insensitive pattern made
    of ASCII letters performs. *)
Definition lower (c : N) : N :=
  if ((65 <=? c) && (c <=? 90))%N then (c + 32)%N else c.

(** [s] starts with the pattern [p]; with [ci] letters compare without case. *)
Fixpoint starts_with (ci : bool) (p s : jstring) : bool :=
  match p, s with
  | [], _ => true
  | _ :: _, [] => false
  | a :: p', c :: s' =>
      (if ci then (lower a =? lower c)%N else (a =? c)%N) && starts_with ci p' s'
  end.

(** Index of the first position at which [p] occurs in [s]. *)
Fixpoint index_of (ci : bool) (p s : jstring) : option nat :=
  if starts_with ci p s then Some O
  else match s with
       | [] => None
       | _ :: r => S <$> index_of ci p r
       end.

End Js.
Export Js.

(* ================================================================== *)
(** ** Response normaliser: lenient JSON recovery                       *)
(* ================================================================== *)

Module Normalizer.

Definition ends_with (p s : jstring) : bool :=
  starts_with false (rev p) (rev s).

(** [s.replace(/^```(?:html|HTML|json)?\s*/i, "")] *)
Definition strip_leading_fence (s : jstring) : jstring :=
  if starts_with false (js "```") s then
    let r := drop 3 s in
    let r :=
      if starts_with true (js "html") r || starts_with true (js "json") r
      then drop 4 r else r in
    trimStart r
  else s.

(** [s.replace(/```$/i, "")] *)
Definition strip_trailing_fence (s : jstring) : jstring :=
  if ends_with (js "```") s then take (length s - 3) s else s.

Definition stripCodeFences (s : jstring) : jstring :=
  match s with
  | [] => s
  | _ => strip_trailing_fence (strip_leading_fence s)
  end.

(** Typographic double and single quotes to ASCII quotes. *)
Definition straighten (c : N) : N :=
  if ((c =? 8220) || (c =? 8221))%N then 34%N
  else if ((c =? 8216) || (c =? 8217))%N then 39%N
  else c.

(** The class [\u0000-\u001F\u007F-\u009F]. *)
Definition is_control (c : N) : bool :=
  ((c <=? 31) || (127 <=? c) && (c <=? 159))%N.

Definition clean (text : jstring) : jstring :=
  List.filter (fun c => negb (is_control c)) (List.map straighten text).

Fixpoint indexOf (c : N) (s : jstring) : option nat :=
  match s with
  | [] => None
  | d :: r => if (d =? c)%N then Some O else S <$> indexOf c r
  end.

Fixpoint lastIndexOf (c : N) (s : jstring) : option nat :=
  match s with
  | [] => None
  | d :: r =>
      match lastIndexOf c r with
      | Some i => Some (S i)
      | None => if (d =? c)%N then Some O else None
      end
  end.

(** [s.slice(from, to)] for [from <= to] within the string. *)
Definition slice (from to : nat) (s : jstring) : jstring :=
  take (to - from) (drop from s).

(** The candidate of the third strategy: the cleaned text from its first
    opening brace to its last closing brace. *)
Definition brace_block (text : jstring) : option jstring :=
  let t := clean text in
  match indexOf 123 t, lastIndexOf 125 t with
  | Some first, Some last =>
      if (first <? last)%nat then Some (slice first (S last) t) else None
  | _, _ => None
  end.

(** The capture of [text.match(/```json([\s\S]*?)```/i)]: what stands
    between the first json fence and the nearest fence after it. *)
Definition json_fence (text : jstring) : option jstring :=
  match index_of true (js "```json") text with
  | Some i =>
      let rest := drop (i + 7) text in
      match index_of false (js "```") rest with
      | Some j => Some (take j rest)
      | None => None
      end
  | None => None
  end.

Inductive strategy : Type :=
| Direct | Unfenced | BraceBlock | JsonFence.

Section Parse.

(** [JSON.parse] of the runtime; [None] when it throws. *)
Variable JSON_parse : jstring -> option jsval.

(** parseJsonLenient, together with the try blocks it entered.  A block
    whose parse succeeds returns from the function. *)
Definition parseJsonLenient_steps (text : jstring) : list strategy * jsval :=
  match text with
  | [] => ([], JNull)
  | _ =>
      match JSON_parse text with
      | Some v => ([Direct], v)
      | None =>
          match JSON_parse (stripCodeFences text) with
          | Some v => ([Direct; Unfenced], v)
          | None =>
              match
                match brace_block text with
                | Some candidate => JSON_parse candidate
                | None => None
                end
              with
              | Some v => ([Direct; Unfenced; BraceBlock], v)
              | None =>
                  match
                    match json_fence text with
                    | Some m1 => JSON_parse m1
                    | None => None
                    end
                  with
                  | Some v => ([Direct; Unfenced; BraceBlock; JsonFence], v)
                  | None => ([Direct; Unfenced; BraceBlock; JsonFence], JNull)
                  end
              end
          end
      end
  end.

Definition parseJsonLenient (text : jstring) : jsval :=
  snd (parseJsonLenient_steps text).

(** The contract of the normaliser as the specification words it: four
    strategies, tried in order, the first success wins. *)
Definition spec_strategy (s : strategy) (text : jstring) : option jsval :=
  match s with
  | Direct => JSON_parse text
  | Unfenced => JSON_parse (stripCodeFences text)
  | BraceBlock => brace_block text ≫= JSON_parse
  | JsonFence => json_fence text ≫= JSON_parse
  end.

Definition spec_order : list strategy :=
  [Direct; Unfenced; BraceBlock; JsonFence].

Fixpoint spec_first_success (order : list strategy) (text : jstring)
    : list strategy * option jsval :=
  match order with
  | [] => ([], None)
  | s :: later =>
      match spec_strategy s text with
      | Some v => ([s], Some v)
      | None =>
          let '(tried, r) := spec_first_success later text in (s :: tried, r)
      end
  end.

End Parse.

End Normalizer.

(* ================================================================== *)
(** ** A reference reading of JSON.parse                                *)
(* ================================================================== *)

(** The normaliser is verified for every [JSON.parse]; this reader of the
    JSON grammar (numbers: integers) instantiates it in the examples. *)
Module JsonRef.

Fixpoint skip_ws (s : jstring) : jstring :=
  match s with
  | c :: r =>
      if ((c =? 32) || (c =? 9) || (c =? 10) || (c =? 13))%N then skip_ws r else s
  | [] => []
  end.

Definition hex_value (c : N) : option N :=
  if is_digit c then Some (c - 48)%N
  else if ((97 <=? c) && (c <=? 102))%N then Some (c - 87)%N
  else if ((65 <=? c) && (c <=? 70))%N then Some (c - 55)%N
  else None.

(** The characters of a string literal after its opening quote. *)
Fixpoint read_string (s : jstring) (acc : jstring) : option (jstring * jstring) :=
  match s with
  | [] => None
  | 34%N :: r => Some (rev acc, r)
  | 92%N :: 117%N :: a :: b :: c :: d :: r =>
      match hex_value a, hex_value b, hex_value c, hex_value d with
      | Some a, Some b, Some c, Some d =>
          read_string r ((4096 * a + 256 * b + 16 * c + d)%N :: acc)
      | _, _, _, _ => None
      end
  | 92%N :: e :: r =>
      let unescaped :=
        if (e =? 34)%N then Some 34%N else if (e =? 92)%N then Some 92%N
        else if (e =? 47)%N then Some 47%N else if (e =? 98)%N then Some 8%N
        else if (e =? 102)%N then Some 12%N else if (e =? 110)%N then Some 10%N
        else if (e =? 114)%N then Some 13%N else if (e =? 116)%N then Some 9%N
        else None in
      match unescaped with
      | Some c => read_string r (c :: acc)
      | None => None
      end
  | c :: r => if (c <? 32)%N then None else read_string r (c :: acc)
  end.

Fixpoint read_digits (s : jstring) (acc : N) : N * jstring :=
  match s with
  | c :: r => if is_digit c then read_digits r (10 * acc + (c - 48))%N else (acc, s)
  | [] => (acc, [])
  end.

(** An integer literal: no leading zero, no fraction, no exponent. *)
Definition read_int (s : jstring) : option (N * jstring) :=
  match s with
  | 48%N :: r =>
      match r with
      | c :: _ => if is_digit c then None else Some (0%N, r)
      | [] => Some (0%N, r)
      end
  | c :: _ => if is_digit c then Some (read_digits s 0) else None
  | [] => None
  end.

Definition integer_only (r : jstring) : bool :=
  match r with
  | c :: _ => negb ((c =? 46) || (c =? 101) || (c =? 69))%N
  | [] => true
  end.

Fixpoint read_value (fuel : nat) (s : jstring) : option (jsval * jstring) :=
  match fuel with
  | O => None
  | S fuel' =>
      match skip_ws s with
      | 110%N :: 117%N :: 108%N :: 108%N :: r => Some (JNull, r)
      | 116%N :: 114%N :: 117%N :: 101%N :: r => Some (JBool true, r)
      | 102%N :: 97%N :: 108%N :: 115%N :: 101%N :: r => Some (JBool false, r)
      | 34%N :: r =>
          '(str, r') ← read_string r []; Some (JStr str, r')
      | 91%N :: r =>
          match skip_ws r with
          | 93%N :: r' => Some (JArr [], r')
          | _ => '(l, r') ← read_elements fuel' r []; Some (JArr l, r')
          end
      | 123%N :: r =>
          match skip_ws r with
          | 125%N :: r' => Some (JObj ∅, r')
          | _ => '(m, r') ← read_members fuel' r ∅; Some (JObj m, r')
          end
      | 45%N :: r =>
          '(n, r') ← read_int r;
          if integer_only r' then Some (JNum (- Z.of_N n), r') else None
      | r =>
          '(n, r') ← read_int r;
          if integer_only r' then Some (JNum (Z.of_N n), r') else None
      end
  end
with read_elements (fuel : nat) (s : jstring) (acc : list jsval)
    : option (list jsval * jstring) :=
  match fuel with
  | O => None
  | S fuel' =>
      '(v, r) ← read_value fuel' s;
      match skip_ws r with
      | 44%N :: r' => read_elements fuel' r' (v :: acc)
      | 93%N :: r' => Some (rev (v :: acc), r')
      | _ => None
      end
  end
with read_members (fuel : nat) (s : jstring) (acc : gmap jstring jsval)
    : option (gmap jstring jsval * jstring) :=
  match fuel with
  | O => None
  | S fuel' =>
      match skip_ws s with
      | 34%N :: r =>
          '(k, r1) ← read_string r [];
          match skip_ws r1 with
          | 58%N :: r2 =>
              '(v, r3) ← read_value fuel' r2;
              match skip_ws r3 with
              | 44%N :: r' => read_members fuel' r' (<[k := v]> acc)
              | 125%N :: r' => Some (<[k := v]> acc, r')
              | _ => None
              end
          | _ => None
          end
      | _ => None
      end
  end.

Definition JSON_parse (text : jstring) : option jsval :=
  '(v, r) ← read_value (2 * S (length text)) text;
  match skip_ws r with
  | [] => Some v
  | _ => None
  end.

End JsonRef.


(* ================================================================== *)
(** ** Handlers as computations over the outside world                  *)
(* ================================================================== *)

Module Effects.

(** A computation reads and updates a state and returns or throws. *)
Definition M (S A : Type) : Type := S -> result A * S.

Definition ret {S A : Type} (a : A) : M S A :=
  fun s => (Ok a, s).

Definition throw {S A : Type} (e : exn) : M S A :=
  fun s => (Throw e, s).

Definition lift {S A : Type} (r : result A) : M S A :=
  fun s => (r, s).

Definition bind {S A B : Type} (m : M S A) (k : A -> M S B) : M S B :=
  fun s =>
    match m s with
    | (Ok a, s') => k a s'
    | (Throw e, s') => (Throw e, s')
    end.

(** [try { m } catch (e) { h e }] *)
Definition try_catch {S A : Type} (m : M S A) (h : exn -> M S A) : M S A :=
  fun s =>
    match m s with
    | (Ok a, s') => (Ok a, s')
    | (Throw e, s') => h e s'
    end.

Notation "x <~ m ; k" := (bind m (fun x => k))
  (at level 20, m at level 100, k at level 200, only parsing).

(** What a handler sends: a status and a JSON body. *)
Inductive reply : Type :=
| Reply (status : N) (body : jsval).

Definition status_of (r : reply) : N :=
  match r with Reply s _ => s end.

Definition body_of (r : reply) : jsval :=
  match r with Reply _ b => b end.

(** An object literal. *)
Definition obj (members : list (jstring * jsval)) : jsval :=
  JObj (list_to_map members).

(** The outer [try { ... } catch (err) { res.status(500).json(...) }]. *)
Definition handle {S : Type} (m : M S reply) : S -> reply * S :=
  fun s =>
    match m s with
    | (Ok r, s') => (r, s')
    | (Throw e, s') =>
        (Reply 500 (obj [(js "ok", JBool false); (js "error", JStr (message e))]), s')
    end.

End Effects.
Export Effects.

(* ================================================================== *)
(** ** POST /api/parse-image and POST /api/parse-pdf                    *)
(* ================================================================== *)

Module Generation.

Record chat_message : Type := {
  role : jstring;
  content : jsval
}.

(** The options a handler passes to the generation client. *)
Record call_opts : Type := {
  temperature : option QArith_base.Q;
  max_tokens : option N;
  model : option jstring;
  force_json : bool
}.

(** The body of the request the client posts.  Of the two declarations of
    callOpenAI in the module the later one is in force: it sends the
    model and the messages. *)
Record payload : Type := {
  payload_model : jstring;
  payload_messages : list chat_message
}.

(** The state a parse handler runs in: the world outside the process and
    the requests posted to the generation API so far. *)
Record world (W : Type) : Type := {
  outside : W;
  requests : list payload
}.
Arguments outside {W} w.
Arguments requests {W} w.

(** multipart upload: the stored file, if any, and the prompt field. *)
Record upload_request : Type := {
  file : option jstring;
  prompt : option jstring
}.

Definition baseSystemPrompt : jstring :=
  jsq "You are an expert quiz generator. Output ONLY valid JSON (no markdown, no prose). Schema: {'title': string, 'description': string, 'questions': [{'id': string, 'question': string, 'options': string[], 'correctAnswer': number, 'explanation': string}]}. Rules: 1) Do not include code fences. 2) Do not include comments. 3) Use zero-based index for correctAnswer. 4) Ensure JSON is syntactically valid. 5) Provide 3"
  ++ [8211%N] ++ js "6 options where applicable. 6) Keep explanations concise.".

Definition ensureJsonLine : jstring :=
  js "Return ONLY valid JSON per the schema above.".

(** [/json/i.test(s)] *)
Definition mentions_json (s : jstring) : bool :=
  match index_of true (js "json") s with Some _ => true | None => false end.

Definition systemContent (teacherPrompt : jstring) : jstring :=
  match teacherPrompt with
  | [] => baseSystemPrompt
  | _ =>
      baseSystemPrompt ++ 10%N :: js "Teacher instructions: " ++ teacherPrompt
      ++ (if negb (mentions_json teacherPrompt) then 10%N :: ensureJsonLine else [])
  end.

Definition quiz_opts : call_opts :=
  {| temperature := Some (QArith_base.Qmake 2 10); max_tokens := Some 1200%N;
     model := Some (js "gpt-4o-mini"); force_json := true |}.

Definition hint_opts : call_opts :=
  {| temperature := Some (QArith_base.Qmake 5 10); max_tokens := Some 120%N;
     model := Some (js "gpt-4o-mini"); force_json := false |}.

Definition hint_messages (questionText : jsval) : list chat_message :=
  [ {| role := js "system";
       content := JStr (js "You are an expert teacher. Provide a helpful hint for the following quiz question.") |};
    {| role := js "user"; content := questionText |} ].

(** The 422 body: the envelope and the head of the raw text. *)
Definition invalid_model_output (aiResponse : jstring) : reply :=
  Reply 422 (obj [(js "ok", JBool false);
                  (js "error", JStr (js "OpenAI did not return valid JSON"));
                  (js "raw", JStr (take 4000 aiResponse))]).

(** The question text the hint pass works from, when there is one:
    [q.question || q.prompt], if truthy. *)
Definition question_text (q : jsval) : option jsval :=
  match js_or (get q (js "question")) (get q (js "prompt")) with
  | Some t => if truthy t then Some t else None
  | None => None
  end.

(** The request a hint call posts for a question text. *)
Definition hint_payload (questionText : jsval) : payload :=
  {| payload_model := js "gpt-4o-mini";
     payload_messages := hint_messages questionText |}.

(** The hint a question ends with, from the outcome of its own call. *)
Definition hint_of (outcome : result jstring) : jstring :=
  match outcome with
  | Ok hint => trim hint
  | Throw _ => []
  end.

(** The specification's reading of a value that is not an object. *)
Definition not_json_object (v : jsval) : bool :=
  match v with
  | JObj _ => false
  | _ => true
  end.

(** What the handler's test [!quizData || typeof quizData !== 'object']
    rejects: null, booleans, numbers and strings. *)
Definition not_typeof_object (v : jsval) : bool :=
  match v with
  | JObj _ | JArr _ => false
  | _ => true
  end.

Section Endpoints.

Context {W : Type}.

(** [JSON.parse] of the runtime. *)
Variable JSON_parse : jstring -> option jsval.
(** The chat-completions exchange: the content of the first choice, or
    the error the client throws (no fetch, a non-2xx status, a body that
    is not JSON). *)
Variable chat_completions : payload -> W -> result jstring * W.
(** The text the OCR engine recognises in a file. *)
Variable recognize : jstring -> W -> result jstring * W.
(** The text the PDF reader finds in a file. *)
Variable pdf_text : jstring -> W -> result jstring * W.

Definition callOpenAI (messages : list chat_message) (opts : call_opts)
    : M (world W) jstring :=
  fun w =>
    let p := {| payload_model :=
                  match model opts with
                  | Some (c :: m) => c :: m
                  | _ => js "gpt-5"
                  end;
                payload_messages := messages |} in
    let '(r, o) := chat_completions p (outside w) in
    (r, {| outside := o; requests := requests w ++ [p] |}).

Definition outside_call {A : Type} (f : W -> result A * W) : M (world W) A :=
  fun w =>
    let '(r, o) := f (outside w) in
    (r, {| outside := o; requests := requests w |}).

(** [String(filePath).replace(/\\/g, "/")] *)
Definition forward_slashes (filePath : jstring) : jstring :=
  List.map (fun c => if (c =? 92)%N then 47%N else c) filePath.

Definition extractImageText (filePath : jstring) : M (world W) jstring :=
  text <~ outside_call (recognize (forward_slashes filePath)) ;
  if blank text then throw (Error (js "No text extracted from image"))
  else ret (trim text).

Definition extractPdfText (filePath : jstring) : M (world W) jstring :=
  data_text <~ outside_call (pdf_text (forward_slashes filePath)) ;
  let text := trim data_text in
  match text with
  | [] => throw (Error (js "No text extracted from PDF"))
  | _ => ret text
  end.

(** The body of the loop over [quizData.questions]. *)
Definition hint_question (q : jsval) : M (world W) jsval :=
  question <~ lift (get_checked q (js "question")) ;
  prompt <~ (if truthy_opt question then ret None
             else lift (get_checked q (js "prompt"))) ;
  match js_or question prompt with
  | Some questionText =>
      if truthy questionText then
        try_catch
          (hint <~ callOpenAI (hint_messages questionText) hint_opts ;
           ret (set q (js "hint") (JStr (trim hint))))
          (fun _ => ret (set q (js "hint") (JStr [])))
      else ret q
  | None => ret q
  end.

Fixpoint hint_loop (questions : list jsval) : M (world W) (list jsval) :=
  match questions with
  | [] => ret []
  | q :: later =>
      q' <~ hint_question q ;
      later' <~ hint_loop later ;
      ret (q' :: later')
  end.

(** The hint pass as a run over the questions and the outside world: an
    element without a question text is passed over; an element with one
    costs one hint request and carries the hint of that request's
    outcome, the trimmed answer or the empty string when the call
    failed; in both cases the run goes on with the later elements. *)
Inductive hint_run : list jsval -> W -> list jsval -> W -> list payload -> Prop :=
| run_done (o : W) :
    hint_run [] o [] o []
| run_pass (q : jsval) (later later' : list jsval) (o o' : W) (posted : list payload) :
    question_text q = None ->
    hint_run later o later' o' posted ->
    hint_run (q :: later) o (q :: later') o' posted
| run_call (q questionText : jsval) (outcome : result jstring)
    (later later' : list jsval) (o o1 o' : W) (posted : list payload) :
    question_text q = Some questionText ->
    chat_completions (hint_payload questionText) o = (outcome, o1) ->
    hint_run later o1 later' o' posted ->
    hint_run (q :: later) o
      (set q (js "hint") (JStr (hint_of outcome)) :: later') o'
      (hint_payload questionText :: posted).

(** From the model's answer to the reply: parse, reject, backfill hints.
    (The handler then unlinks the upload, which leaves the reply as it
    is.) *)
Definition quiz_reply (aiResponse : jstring) : M (world W) reply :=
  let quizData := Normalizer.parseJsonLenient JSON_parse aiResponse in
  if negb (truthy quizData) || negb (is_object (Some quizData)) then
    ret (invalid_model_output aiResponse)
  else
    quizData' <~ match get quizData (js "questions") with
                 | Some (JArr questions) =>
                     questions' <~ hint_loop questions ;
                     ret (set quizData (js "questions") (JArr questions'))
                 | _ => ret quizData
                 end ;
    ret (Reply 200 (obj [(js "ok", JBool true); (js "quiz", quizData')])).

(** From the stored upload to the model's answer. *)
Definition model_answer (extract : jstring -> M (world W) jstring)
    (filePath : jstring) (prompt : option jstring) : M (world W) jstring :=
  text <~ extract filePath ;
  let text := if (6000 <? length text)%nat then take 6000 text else text in
  let teacherPrompt := default [] prompt in
  let messages :=
    [ {| role := js "system"; content := JStr (systemContent teacherPrompt) |};
      {| role := js "user"; content := JStr text |} ] in
  callOpenAI messages quiz_opts.

Definition parse_endpoint (extract : jstring -> M (world W) jstring)
    (req : upload_request) : world W -> reply * world W :=
  handle
    match file req with
    | None => ret (Reply 400 (obj [(js "error", JStr (js "No file uploaded"))]))
    | Some filePath =>
        aiResponse <~ model_answer extract filePath (prompt req) ;
        quiz_reply aiResponse
    end.

Definition post_parse_image : upload_request -> world W -> reply * world W :=
  parse_endpoint extractImageText.

Definition post_parse_pdf : upload_request -> world W -> reply * world W :=
  parse_endpoint extractPdfText.

End Endpoints.

End Generation.

(* ================================================================== *)
(** ** POST /api/attempts: the attempt merge engine                     *)
(* ================================================================== *)

Module Attempts.

(** A document of the Attempt collection, and the update the handler
    builds for one: a path is undefined ([None]), null or a value. *)
Record attempt : Type := {
  id : jstring;
  quizId : option jsval;
  email : option jsval;
  answers : gmap jstring jsval;
  progress : gmap jstring jsval;
  score : option jsval;
  totalQuestions : option jsval;
  submitted : option jsval;
  submittedAt : Z
}.

(** A reply carries the stored attempt, or a status with the message of
    the error; [StoreError] is the reply 500 with the message of a cast
    error of the store library. *)
Inductive response : Type :=
| Saved (upsert : attempt)
| Failed (status : N) (error : jstring)
| StoreError.

(** [/^q\d+$/.test(k)] *)
Definition is_question_key (k : jstring) : bool :=
  match k with
  | 113%N :: d :: ds => forallb is_digit (d :: ds)
  | _ => false
  end.

(** [req.body || {}] *)
Definition incoming_of (body : jsval) : jsval :=
  if truthy body then body else JObj ∅.

(** [incoming.answers] where it is an object, else nothing to copy. *)
Definition nested_answers (incoming : jsval) : gmap jstring jsval :=
  match get incoming (js "answers") with
  | Some a => if truthy a && is_object (Some a) then entries a else ∅
  | None => ∅
  end.

(** The nested answers first, then the top-level qN keys of the payload. *)
Definition incomingAnswers (incoming : jsval) : gmap jstring jsval :=
  let copied := forEach_key (nested_answers incoming) put ∅ in
  forEach_key (entries incoming)
    (fun k v acc => if is_question_key k then put k v acc else acc) copied.

Definition incomingProgress (incoming : jsval) : gmap jstring jsval :=
  match get incoming (js "progress") with
  | Some p => if truthy p && is_object (Some p) then entries p else ∅
  | None => ∅
  end.

(** [Object.assign({}, existing && existing.answers ? existing.answers : {})] *)
Definition prior_answers (existing : option attempt) : gmap jstring jsval :=
  match existing with
  | Some a => assign ∅ (answers a)
  | None => ∅
  end.

Definition prior_progress (existing : option attempt) : gmap jstring jsval :=
  match existing with
  | Some a => assign ∅ (progress a)
  | None => ∅
  end.

Definition mergedAnswers (existing : option attempt)
    (incomingAnswers : gmap jstring jsval) : gmap jstring jsval :=
  forEach_key incomingAnswers
    (fun k v merged =>
       match v with
       | JNull => merged
       | JStr s => if blank s then merged else put k v merged
       | _ => put k v merged
       end)
    (prior_answers existing).

Definition mergedProgress (existing : option attempt)
    (incomingProgress : gmap jstring jsval) : gmap jstring jsval :=
  forEach_key incomingProgress
    (fun k v merged =>
       match v with
       | JNull => merged
       | _ => put k v merged
       end)
    (prior_progress existing).

(** The template literal [`${quizId}::${email}`]. *)
Definition attempt_id (body : jsval) : result jstring :=
  rbind (ToString_opt (get body (js "quizId"))) (fun q =>
  rbind (ToString_opt (get body (js "email"))) (fun e =>
  Ok (q ++ js "::" ++ e))).

(** The document the handler hands to the upsert. *)
Definition merge (existing : option attempt) (body : jsval) (id : jstring)
    (now : Z) : attempt :=
  let incoming := incoming_of body in
  {| id := id;
     quizId := get body (js "quizId");
     email := get body (js "email");
     answers := mergedAnswers existing (incomingAnswers incoming);
     progress := mergedProgress existing (incomingProgress incoming);
     score := get body (js "score");
     totalQuestions := get body (js "totalQuestions");
     submitted := get body (js "submitted");
     submittedAt := now |}.

Section Store.

(** The cast of the store library: what it makes of a defined value
    handed to it for a path of the Attempt schema (quizId and email are
    of type String, score and totalQuestions of type Number, submitted of
    type Boolean) before the value is set; [None] when it refuses the
    value and the call throws its CastError. *)
Variable cast : jstring -> jsval -> option jsval.

(** One path of a [$set]: an undefined value is left out of the update
    and leaves the stored value as it is, a defined one is cast and
    takes its place. *)
Definition set_path (path : jstring) (update stored : option jsval)
    : option (option jsval) :=
  match update with
  | None => Some stored
  | Some v => Some <$> cast path v
  end.

(** [Attempt.findOneAndUpdate({ id }, doc, { upsert: true, new: true,
    setDefaultsOnInsert: true })] on the document found under the id, if
    any: the defined paths of [doc] are cast and set, the other paths
    keep what is stored, and a new document starts from the defaults of
    the schema (submitted: false).  The id, which is a string, the two
    paths of type Object and the date are always defined and are set as
    they are.  [None] when a cast fails: the call then throws and nothing
    is written. *)
Definition findOneAndUpdate (existing : option attempt) (doc : attempt)
    : option attempt :=
  quizId' ← set_path (js "quizId") (quizId doc) (existing ≫= quizId);
  email' ← set_path (js "email") (email doc) (existing ≫= email);
  score' ← set_path (js "score") (score doc) (existing ≫= score);
  totalQuestions' ← set_path (js "totalQuestions") (totalQuestions doc)
                      (existing ≫= totalQuestions);
  submitted' ← set_path (js "submitted") (submitted doc)
                 (match existing with
                  | Some a => submitted a
                  | None => Some (JBool false)
                  end);
  Some {| id := id doc; quizId := quizId'; email := email';
          answers := answers doc; progress := progress doc;
          score := score'; totalQuestions := totalQuestions';
          submitted := submitted'; submittedAt := submittedAt doc |}.

(** The values a payload defines for the paths that are cast pass their
    casts, so that the upsert of the call does not throw. *)
Definition castable (body : jsval) : bool :=
  bool_decide
    (is_Some (set_path (js "quizId") (get body (js "quizId")) None)
     /\ is_Some (set_path (js "email") (get body (js "email")) None)
     /\ is_Some (set_path (js "score") (get body (js "score")) None)
     /\ is_Some (set_path (js "totalQuestions")
                   (get body (js "totalQuestions")) None)
     /\ is_Some (set_path (js "submitted") (get body (js "submitted")) None)).

(** The handler over the Attempt collection: find by id, merge, upsert,
    reply with the document the upsert returns. *)
Definition post_attempts (body : jsval) (now : Z) (db : gmap jstring attempt)
    : response * gmap jstring attempt :=
  match attempt_id body with
  | Ok id =>
      let existing := db !! id in
      let doc := merge existing body id now in
      match findOneAndUpdate existing doc with
      | Some upsert => (Saved upsert, <[id := upsert]> db)
      | None => (StoreError, db)
      end
  | Throw err => (Failed 500 (message err), db)
  end.

End Store.

(** The specification's empty value of an answer: null, or a string of
    nothing but whitespace. *)
Definition empty_value (v : jsval) : bool :=
  match v with
  | JNull => true
  | JStr s => blank s
  | _ => false
  end.

(** GET /api/attempts *)
Definition get_attempts (query_quizId query_email : option jsval)
    (db : gmap jstring attempt) : response :=
  match rbind (ToString_opt query_quizId) (fun q =>
        rbind (ToString_opt query_email) (fun e => Ok (q ++ js "::" ++ e))) with
  | Ok id =>
      match db !! id with
      | Some a => Saved a
      | None => Failed 404 (js "not found")
      end
  | Throw err => Failed 500 (message err)
  end.

End Attempts.

(* ================================================================== *)
(** ** GET /api/quizzes/:id: the allow-list check                       *)
(* ================================================================== *)

Module Quizzes.

(** A document of the Quiz collection (the schema of the models file;
    an array path that was never set reads as the empty array). *)
Record quiz : Type := {
  id : jstring;
  finalizedJson : option jsval;
  filePath : option jstring;
  metadata : option jsval;
  courseId : option jstring;
  teacherId : option jstring;
  allowedStudents : list jstring
}.

Record request : Type := {
  params_id : jstring;
  query_email : option jstring;
  origin : option jstring;
  protocol : jstring;
  host : option jstring
}.

Inductive response : Type :=
| Found (quizObj : quiz) (fileUrl : option jstring)
| Refused (status : N) (error : jstring).

Definition status (r : response) : N :=
  match r with
  | Found _ _ => 200%N
  | Refused s _ => s
  end.

(** [!!s] for a possibly undefined string. *)
Definition present (s : option jstring) : bool :=
  match s with
  | Some (_ :: _) => true
  | _ => false
  end.

(** [list.includes(email)] *)
Definition includes (list : list jstring) (email : option jstring) : bool :=
  match email with
  | Some e => bool_decide (e ∈ list)
  | None => false
  end.

Fixpoint drop_trailing_slashes (rev_path : jstring) : jstring :=
  match rev_path with
  | 47%N :: r => drop_trailing_slashes r
  | _ => rev_path
  end.

Fixpoint until_slash (rev_path : jstring) : jstring :=
  match rev_path with
  | [] => []
  | c :: r => if (c =? 47)%N then [] else c :: until_slash r
  end.

(** [path.basename(p)] on a path with forward slashes. *)
Definition basename (p : jstring) : jstring :=
  rev (until_slash (drop_trailing_slashes (rev p))).

Definition get_quiz (req : request) (db : gmap jstring quiz) : response :=
  match db !! params_id req with
  | None => Refused 404 (js "not found")
  | Some q =>
      if (0 <? length (allowedStudents q))%nat
         && (negb (present (query_email req))
             || negb (includes (allowedStudents q) (query_email req)))
      then Refused 403 (js "not allowed")
      else
        let host :=
          if present (origin req) then default [] (origin req)
          else protocol req ++ js "://" ++ default (js "undefined") (host req) in
        let fileUrl :=
          if present (filePath q)
          then Some (host ++ js "/server/uploads/" ++ basename (default [] (filePath q)))
          else None in
        Found q fileUrl
  end.

End Quizzes.

(* ================================================================== *)
(** ** POST /api/chats: the chat store                                  *)
(* ================================================================== *)

Module Chats.

(** A document of the Chat collection. *)
Record chat : Type := {
  id : jstring;
  role : jstring;
  text : jstring;
  meta : option jsval;
  teacherId : jstring;
  timestamp : Z
}.

Inductive response : Type :=
| Saved (upsert : chat)
| Rejected (status : N) (error : jstring)
| StoreError.

(** The String type of the schema applied to a value of the payload, as
    the store library casts it: numbers and booleans print, a document
    stands for its string [_id], any other object or array is refused. *)
Definition castString (v : jsval) : option jstring :=
  match v with
  | JStr s => Some s
  | JNum _ | JBool _ =>
      match ToString v with Ok s => Some s | Throw _ => None end
  | JObj m =>
      match m !! js "_id" with
      | Some (JStr (c :: s)) => Some (c :: s)
      | _ => None
      end
  | JArr _ | JNull => None
  end.

(** [typeof v === 'string' && v]: a non-empty string, or nothing. *)
Definition string_and_truthy (v : option jsval) : option jstring :=
  match v with
  | Some (JStr (c :: s)) => Some (c :: s)
  | _ => None
  end.

(** [v && v.k] as far as its truthiness and value matter. *)
Definition and_get (v : option jsval) (k : jstring) : option jsval :=
  match v with
  | Some w => if truthy w then get w k else None
  | None => None
  end.

(** The first truthy alternative of a chain of [||]. *)
Fixpoint first_truthy (alternatives : list (option jsval)) : option jsval :=
  match alternatives with
  | [] => None
  | a :: later => if truthy_opt a then a else first_truthy later
  end.

Definition resolvedText (body : jsval) : jstring :=
  let message := get body (js "message") in
  match string_and_truthy (get body (js "text")) with
  | Some t => t
  | None =>
  match string_and_truthy (get body (js "content")) with
  | Some t => t
  | None =>
  match string_and_truthy (and_get message (js "content")) with
  | Some t => t
  | None =>
  match string_and_truthy (and_get message (js "text")) with
  | Some t => t
  | None => []
  end end end end.

Definition effectiveRole (body : jsval) : jstring :=
  match string_and_truthy (get body (js "role")) with
  | Some r => r
  | None =>
  match string_and_truthy (and_get (get body (js "message")) (js "role")) with
  | Some r => r
  | None => js "user"
  end end.

Definition effectiveTeacherId (body : jsval) : option jsval :=
  first_truthy [ get body (js "teacherId");
                 and_get (get body (js "message")) (js "teacherId");
                 and_get (get body (js "meta")) (js "teacherId") ].

Section Store.

(** The time value of [new Date(v)]; [None] for an invalid date, which
    the Date type of the schema refuses. *)
Variable Date_of : jsval -> option Z.

(** The document the handler builds, as the schema casts it on its way
    into the store; [None] when a cast fails. *)
Definition chat_doc (body : jsval) (tid : jsval) (now : Z)
    : option chat :=
  let text := resolvedText body in
  let raw_id :=
    match get body (js "id") with
    | Some i => if truthy i then i else JStr (js "msg_" ++ N_toString 36 (Z.to_N now))
    | None => JStr (js "msg_" ++ N_toString 36 (Z.to_N now))
    end in
  let meta :=
    match text with
    | [] =>
        Some (JObj (assign (assign ∅ (match get body (js "meta") with
                                      | Some m => if truthy m then entries m else ∅
                                      | None => ∅
                                      end))
                           {[ js "raw" := body ]}))
    | _ => get body (js "meta")
    end in
  id ← castString raw_id;
  teacherId ← castString tid;
  timestamp ← match get body (js "timestamp") with
              | Some t => if truthy t then Date_of t else Some now
              | None => Some now
              end;
  Some {| id := id; role := effectiveRole body; text := text; meta := meta;
          teacherId := teacherId; timestamp := timestamp |}.

(** [Chat.findOneAndUpdate({ id: doc.id }, doc, { upsert: true, new:
    true, setDefaultsOnInsert: true })] on the document found under the
    id, if any: every path of [doc] but meta is defined and is set; meta
    is set when the payload defines it, and keeps what is stored when it
    does not. *)
Definition findOneAndUpdate (existing : option chat) (doc : chat) : chat :=
  {| id := id doc; role := role doc; text := text doc;
     meta := match meta doc with
             | Some m => Some m
             | None => existing ≫= meta
             end;
     teacherId := teacherId doc; timestamp := timestamp doc |}.

(** The handler over the Chat collection: validate, build, upsert by id,
    reply with the document the upsert returns. *)
Definition post_chats (body : jsval) (now : Z) (db : gmap jstring chat)
    : response * gmap jstring chat :=
  match effectiveTeacherId body with
  | None => (Rejected 400 (js "teacherId required"), db)
  | Some tid =>
      if blank (resolvedText body)
      then (Rejected 400 (js "text/content required"), db)
      else
        match chat_doc body tid now with
        | Some doc =>
            let upsert := findOneAndUpdate (db !! id doc) doc in
            (Saved upsert, <[id doc := upsert]> db)
        | None => (StoreError, db)
        end
  end.

(** A sequence of calls, each with its body and the clock at its time. *)
Fixpoint post_all (calls : list (jsval * Z)) (db : gmap jstring chat)
    : gmap jstring chat :=
  match calls with
  | [] => db
  | (body, now) :: later => post_all later (snd (post_chats body now db))
  end.

(** The ids under which the accepted calls of a sequence stored their
    documents. *)
Fixpoint saved_ids (calls : list (jsval * Z)) (db : gmap jstring chat)
    : list jstring :=
  match calls with
  | [] => []
  | (body, now) :: later =>
      match post_chats body now db with
      | (Saved doc, db') => id doc :: saved_ids later db'
      | (_, db') => saved_ids later db'
      end
  end.

(** GET /api/chats, before sorting by timestamp and cutting at 1000. *)
Definition chats_of (teacher : jstring) (db : gmap jstring chat)
    : gmap jstring chat :=
  filter (fun kc => teacherId (snd kc) = teacher) db.

End Store.

End Chats.

(* ================================================================== *)
(** ** Sample data                                                      *)
(* ================================================================== *)

Module Samples.

(** A stored attempt of a@x.com on quiz1: q1 answered, p1 at 5, submitted. *)
Definition stored_attempt : Attempts.attempt :=
  {| Attempts.id := js "quiz1::a@x.com";
     Attempts.quizId := Some (JStr (js "quiz1"));
     Attempts.email := Some (JStr (js "a@x.com"));
     Attempts.answers := {[ js "q1" := JStr (js "A") ]};
     Attempts.progress := {[ js "p1" := JNum 5 ]};
     Attempts.score := Some (JNum 1);
     Attempts.totalQuestions := Some (JNum 3);
     Attempts.submitted := Some (JBool true);
     Attempts.submittedAt := 1000 |}.

Definition attempts_db : gmap jstring Attempts.attempt :=
  {[ js "quiz1::a@x.com" := stored_attempt ]}.

(** A stale autosave: a blank q1, a nested q2, a null p1, not submitted. *)
Definition stale_autosave : jsval :=
  obj [ (js "quizId", JStr (js "quiz1")); (js "email", JStr (js "a@x.com"));
        (js "answers", obj [ (js "q1", JStr (js "  ")); (js "q2", JStr (js "C")) ]);
        (js "progress", obj [ (js "p1", JNull) ]);
        (js "score", JNum 0); (js "totalQuestions", JNum 3);
        (js "submitted", JBool false) ].

(** An autosave whose progress entry p1 is the empty string. *)
Definition blank_progress : jsval :=
  obj [ (js "quizId", JStr (js "quiz1")); (js "email", JStr (js "a@x.com"));
        (js "progress", obj [ (js "p1", JStr []) ]) ].

(** q1 both nested and at the top level of the payload. *)
Definition both_levels : jsval :=
  obj [ (js "quizId", JStr (js "quiz1")); (js "email", JStr (js "a@x.com"));
        (js "answers", obj [ (js "q1", JStr (js "A")) ]);
        (js "q1", JStr (js "B")) ].

(** A world that answers every outside call with the next line of a
    script: extraction first, then the generation calls in order. *)
Definition next_line {A : Type} (_ : A) (script : list (result jstring))
    : result jstring * list (result jstring) :=
  match script with
  | line :: later => (line, later)
  | [] => (Throw (Error (js "script exhausted")), [])
  end.

Definition scripted (script : list (result jstring))
    : Generation.world (list (result jstring)) :=
  {| Generation.outside := script; Generation.requests := [] |}.

Definition upload : Generation.upload_request :=
  {| Generation.file := Some (js "uploads/lx1-notes.png");
     Generation.prompt := None |}.

Definition post_parse_image :=
  Generation.post_parse_image JsonRef.JSON_parse
    (@next_line Generation.payload) (@next_line jstring).

Definition post_parse_pdf :=
  Generation.post_parse_pdf JsonRef.JSON_parse
    (@next_line Generation.payload) (@next_line jstring).

Definition page : result jstring := Ok (js " page text ").

(** The state after extraction and the generation call, when both succeed. *)
Definition answered (script : list (result jstring))
    : Generation.world (list (result jstring)) :=
  snd (Generation.model_answer (@next_line Generation.payload)
         (Generation.extractImageText (@next_line jstring))
         (js "uploads/lx1-notes.png") None (scripted script)).

(** A quiz with two questions. *)
Definition two_questions : jstring :=
  jsq "{'title':'T','questions':[{'id':'1','question':'Q1'},{'id':'2','question':'Q2'}]}".

(** A quiz whose first element is null. *)
Definition null_question : jstring :=
  jsq "{'title':'T','questions':[null,{'id':'2','question':'Q2'}]}".

(** A quiz open to a@x.com only, and the same quiz open to all. *)
Definition restricted_quiz : Quizzes.quiz :=
  {| Quizzes.id := js "quiz1";
     Quizzes.finalizedJson := Some (obj [(js "title", JStr (js "T"))]);
     Quizzes.filePath := Some (js "uploads/lx1-notes.png");
     Quizzes.metadata := None;
     Quizzes.courseId := Some (js "c1");
     Quizzes.teacherId := Some (js "t1");
     Quizzes.allowedStudents := [js "a@x.com"] |}.

Definition quizzes_db : gmap jstring Quizzes.quiz :=
  {[ js "quiz1" := restricted_quiz ]}.

Definition quiz_request (email : option jstring) : Quizzes.request :=
  {| Quizzes.params_id := js "quiz1";
     Quizzes.query_email := email;
     Quizzes.origin := None;
     Quizzes.protocol := js "http";
     Quizzes.host := Some (js "localhost:3004") |}.

(** A stored chat message and two payloads that both carry the id m1. *)
Definition stored_chat : Chats.chat :=
  {| Chats.id := js "m0"; Chats.role := js "user"; Chats.text := js "first";
     Chats.meta := None; Chats.teacherId := js "t1"; Chats.timestamp := 500 |}.

Definition chats_db : gmap jstring Chats.chat :=
  {[ js "m0" := stored_chat ]}.

Definition hello : jsval :=
  obj [ (js "id", JStr (js "m1")); (js "text", JStr (js "hello"));
        (js "teacherId", JStr (js "t1")) ].

Definition bye : jsval :=
  obj [ (js "id", JStr (js "m1")); (js "text", JStr (js "bye"));
        (js "teacherId", JStr (js "t1")) ].

(** An autosave that names the attempt and its progress only. *)
Definition progress_only : jsval :=
  obj [ (js "quizId", JStr (js "quiz1")); (js "email", JStr (js "a@x.com"));
        (js "progress", obj [ (js "p2", JNum 9) ]) ].


(** An autosave with a score that is no number, and a new answer. *)
Definition bad_score : jsval :=
  obj [ (js "quizId", JStr (js "quiz1")); (js "email", JStr (js "a@x.com"));
        (js "answers", obj [ (js "q1", JStr (js "Z")) ]);
        (js "score", JStr (js "abc")) ].

(** An autosave whose score and flag are strings the schema converts. *)
Definition string_fields : jsval :=
  obj [ (js "quizId", JStr (js "quiz1")); (js "email", JStr (js "a@x.com"));
        (js "score", JStr (js "2")); (js "submitted", JStr (js "no")) ].

(** A stored chat message with a meta, and a payload that carries its id
    and no meta. *)
Definition tagged_chat : Chats.chat :=
  {| Chats.id := js "m9"; Chats.role := js "user"; Chats.text := js "first";
     Chats.meta := Some (obj [ (js "a", JNum 1) ]); Chats.teacherId := js "t1";
     Chats.timestamp := 500 |}.

Definition tagged_db : gmap jstring Chats.chat :=
  {[ js "m9" := tagged_chat ]}.

Definition retag : jsval :=
  obj [ (js "id", JStr (js "m9")); (js "content", JStr (js "again"));
        (js "message", obj [ (js "teacherId", JNum 7) ]) ].

(** A reading of [Number(s)] for strings of decimal digits; any other
    string reads as NaN. *)
Definition number_of_string (s : jstring) : option Z :=
  if forallb is_digit s
  then Some (Z.of_N (fold_left (fun acc c => (10 * acc + (c - 48))%N) s 0%N))
  else None.

(** A reading of the casts of the Attempt schema for null, booleans,
    numbers and strings; arrays and objects are refused.  The String
    type prints a number or a boolean; the Number type converts a
    boolean and a string, the empty string to null, and refuses NaN; the
    Boolean type takes true, 'true', 1, '1' and 'yes' for true, false,
    'false', 0, '0' and 'no' for false, and refuses the rest. *)
Definition castString (v : jsval) : option jsval :=
  match v with
  | JNull => Some JNull
  | JStr s => Some (JStr s)
  | JNum _ | JBool _ =>
      match ToString v with Ok s => Some (JStr s) | Throw _ => None end
  | JArr _ | JObj _ => None
  end.

Definition castNumber (v : jsval) : option jsval :=
  match v with
  | JNull => Some JNull
  | JNum n => Some (JNum n)
  | JBool b => Some (JNum (if b then 1 else 0))
  | JStr [] => Some JNull
  | JStr s => JNum <$> number_of_string s
  | JArr _ | JObj _ => None
  end.

Definition castBoolean (v : jsval) : option jsval :=
  match v with
  | JNull => Some JNull
  | JBool b => Some (JBool b)
  | JNum 1 => Some (JBool true)
  | JNum 0 => Some (JBool false)
  | JStr s =>
      if bool_decide (s = js "true" \/ s = js "1" \/ s = js "yes")
      then Some (JBool true)
      else if bool_decide (s = js "false" \/ s = js "0" \/ s = js "no")
      then Some (JBool false)
      else None
  | _ => None
  end.

Definition cast (path : jstring) (v : jsval) : option jsval :=
  if bool_decide (path = js "quizId" \/ path = js "email") then castString v
  else if bool_decide (path = js "score" \/ path = js "totalQuestions")
  then castNumber v
  else if bool_decide (path = js "submitted") then castBoolean v
  else Some v.

(** A reading of [new Date(v)] for numbers, the milliseconds themselves. *)
Definition date_of_number (v : jsval) : option Z :=
  match v with
  | JNum n => Some n
  | _ => None
  end.

Definition question1 : jsval :=
  obj [ (js "id", JStr (js "1")); (js "question", JStr (js "Q1")) ].

Definition question2 : jsval :=
  obj [ (js "id", JStr (js "2")); (js "question", JStr (js "Q2")) ].

Definition two_questions_quiz : gmap jstring jsval :=
  list_to_map [ (js "title", JStr (js "T"));
                (js "questions", JArr [question1; question2]) ].

(** The quiz answer, then a failing hint call, then a hint. *)
Definition failing_hint_script : list (result jstring) :=
  [ page; Ok two_questions; Throw (Error (js "OpenAI API error (500): down"));
    Ok (js " think ") ].

End Samples.

(* ================================================================== *)
(** ** The fallback page: looksLikeHtml and wrapIfNotHtml              *)
(* ================================================================== *)

Module Html.

(** [s.replace(/c/g, by)] for a pattern of one character. *)
Definition replace_char (c : N) (replacement s : jstring) : jstring :=
  flat_map (fun d => if (d =? c)%N then replacement else [d]) s.

(** [/<html[\s>]/i.test(t)] *)
Fixpoint has_html_tag (t : jstring) : bool :=
  (starts_with true (js "<html") t
   && match drop 5 t with
      | c :: _ => is_space c || (c =? 62)%N
      | [] => false
      end)
  || match t with
     | [] => false
     | _ :: r => has_html_tag r
     end.

Definition looksLikeHtml (s : jstring) : bool :=
  match s with
  | [] => false
  | _ =>
      let t := trim s in
      starts_with true (js "<!DOCTYPE html>") t || has_html_tag t
  end.

Definition page_head : jstring :=
  jsq "<!DOCTYPE html><html lang='en'><head><meta charset='utf-8'/><meta name='viewport' content='width=device-width,initial-scale=1'/><title>Worksheet (fallback)</title><style>body{font-family:system-ui;padding:20px;background:#fff}pre{white-space:pre-wrap}</style></head><body><h2>Model output (not valid HTML)</h2><pre>".

Definition page_tail : jstring :=
  js "</pre></body></html>".

(** [(content || "").replace(/</g,"&lt;").replace(/>/g,"&gt;")] *)
Definition safe (content : option jstring) : jstring :=
  replace_char 62 (js "&gt;") (replace_char 60 (js "&lt;") (default [] content)).

Definition wrapIfNotHtml (content : option jstring) : jstring :=
  page_head ++ safe content ++ page_tail.

End Html.

(* ================================================================== *)
(** ** Stored uploads: the file name and the path kept with a quiz      *)
(* ================================================================== *)

Module Uploads.

(** The class [a-z0-9.\-_] under the i flag. *)
Definition safe_char (c : N) : bool :=
  ((97 <=? c) && (c <=? 122) || (65 <=? c) && (c <=? 90) || is_digit c
   || (c =? 46) || (c =? 45) || (c =? 95))%N.

(** [originalname.replace(/[^a-z0-9.\-_]/gi, '_')] *)
Definition sanitize (originalname : jstring) : jstring :=
  List.map (fun c => if safe_char c then c else 95%N) originalname.

(** The name the disk storage gives an upload at time [now]. *)
Definition filename (now : Z) (originalname : jstring) : jstring :=
  N_toString 36 (Z.to_N now) ++ 45%N :: sanitize originalname.

(** The path of a stored upload relative to the module directory, with
    forward slashes: what POST /api/quizzes keeps as filePath. *)
Definition relative_path (name : jstring) : jstring :=
  js "uploads/" ++ name.

End Uploads.

(* ================================================================== *)
(** ** POST /api/chat: a teacher's question to the assistant           *)
(* ================================================================== *)

Module TeacherChat.

Import Generation.

Definition chat_opts : call_opts :=
  {| temperature := Some (QArith_base.Qmake 5 10); max_tokens := Some 1000%N;
     model := None; force_json := false |}.

Definition chat_messages (message : jstring) : list chat_message :=
  [ {| role := js "system";
       content := JStr (js "You are a helpful AI assistant for teachers.") |};
    {| role := js "user"; content := JStr message |} ].

Section Endpoint.

Context {W : Type}.
Variable chat_completions : payload -> W -> result jstring * W.

Definition post_chat (body : jsval) : world W -> reply * world W :=
  handle
    match get body (js "message") with
    | Some (JStr (c :: m)) =>
        aiResponse <~ callOpenAI chat_completions (chat_messages (c :: m)) chat_opts ;
        ret (Reply 200 (obj [(js "ok", JBool true); (js "response", JStr aiResponse)]))
    | _ =>
        ret (Reply 400 (obj [(js "ok", JBool false);
                             (js "error", JStr (js "Message is required."))]))
    end.

End Endpoint.

End TeacherChat.

(* ================================================================== *)
(** ** Sequences of autosaves                                           *)
(* ================================================================== *)

Module AttemptStore.

Import Attempts.

Section Calls.

Variable cast : jstring -> jsval -> option jsval.

(** A sequence of POST /api/attempts calls, each with its body and the
    clock at its time. *)
Fixpoint post_all (calls : list (jsval * Z)) (db : gmap jstring attempt)
    : gmap jstring attempt :=
  match calls with
  | [] => db
  | (body, now) :: later =>
      post_all later (snd (post_attempts cast body now db))
  end.

(** The answer a payload contributes for a key: the collected incoming
    value, unless the merge loop skips it or the upsert throws. *)
Definition kept_answer (body : jsval) (k : jstring) : option jsval :=
  if castable cast body then
    match incomingAnswers (incoming_of body) !! k with
    | Some v => if empty_value v then None else Some v
    | None => None
    end
  else None.

(** The value a sequence of payloads leaves for an answer key: that of
    the last payload that contributes one, else the value before. *)
Definition latest_answer (calls : list (jsval * Z)) (k : jstring)
    (before : option jsval) : option jsval :=
  fold_left
    (fun acc call =>
       match kept_answer (fst call) k with
       | Some v => Some v
       | None => acc
       end)
    calls before.

End Calls.

(** A store whose documents sit under their own id and hold no empty
    answer and no null progress entry. *)
Definition well_kept (db : gmap jstring attempt) : Prop :=
  forall i a, db !! i = Some a ->
    id a = i
    /\ (forall k v, answers a !! k = Some v -> empty_value v = false)
    /\ (forall k v, progress a !! k = Some v -> v <> JNull).

End AttemptStore.

(* ================================================================== *)
(** ** POST /api/signup and POST /api/login                             *)
(* ================================================================== *)

(** The fields of the two request bodies are taken as strings (absent:
    [None]); the user collection is keyed by its unique email. *)
Module Auth.

Record user : Type := {
  _id : jstring;
  email : jstring;
  password : jstring
}.

Record request : Type := {
  req_name : option jstring;
  req_email : option jstring;
  req_password : option jstring
}.

Inductive response : Type :=
| SignedUp (user_email : jstring)
| LoggedIn (token : jstring) (user_id user_email : jstring)
| Refused (status : N) (error : jstring).

(** [!!s] for a possibly undefined string. *)
Definition given (s : option jstring) : bool :=
  match s with
  | Some (_ :: _) => true
  | _ => false
  end.

Section Crypto.

(** [bcrypt.hash(password, 10)] with the salt it draws. *)
Variable bcrypt_hash : jstring -> jstring -> jstring.
(** [bcrypt.compare(password, hash)] *)
Variable bcrypt_compare : jstring -> jstring -> bool.
(** [jwt.sign({email, id}, secret, {expiresIn: '1d'})] at a time. *)
Variable jwt_sign : jstring -> jstring -> jstring -> Z -> jstring.

(** POST /api/signup; [oid] is the identifier the new document gets and
    [salt] the salt of the hash. *)
Definition signup (req : request) (oid salt : jstring) (db : gmap jstring user)
    : response * gmap jstring user :=
  if negb (given (req_name req)) || negb (given (req_email req))
     || negb (given (req_password req))
  then (Refused 400 (js "Email and password required."), db)
  else
    let email := default [] (req_email req) in
    match db !! email with
    | Some existing => (Refused 400 (js "User already exists."), db)
    | None =>
        let hash := bcrypt_hash (default [] (req_password req)) salt in
        let user := {| _id := oid; email := email; password := hash |} in
        (SignedUp email, <[email := user]> db)
    end.

(** POST /api/login; [secret] is the JWT_SECRET of the environment. *)
Definition login (req : request) (secret : option jstring) (now : Z)
    (db : gmap jstring user) : response :=
  if negb (given (req_email req)) || negb (given (req_password req))
  then Refused 400 (js "Email and password required.")
  else
    match db !! default [] (req_email req) with
    | None => Refused 400 (js "User not found.")
    | Some user =>
        if bcrypt_compare (default [] (req_password req)) (password user)
        then
          let key := if given secret then default [] secret else js "secret" in
          LoggedIn (jwt_sign (email user) (_id user) key now) (_id user) (email user)
        else Refused 400 (js "Invalid password.")
    end.

End Crypto.

End Auth.

(* ================================================================== *)
(** ** Sample accounts                                                  *)
(* ================================================================== *)

Module AuthSamples.

Import Auth.

(** A stand-in for the password library: the hash is the salt followed
    by the password, and a password matches a hash that ends with it. *)
Definition sample_hash (password salt : jstring) : jstring := salt ++ password.

Definition sample_compare (password hash : jstring) : bool :=
  bool_decide (drop (length hash - length password) hash = password).

Definition sample_sign (email id key : jstring) (now : Z) : jstring :=
  email ++ 46%N :: id ++ 46%N :: key ++ 46%N :: Number_toString now.

Definition ada : request :=
  {| req_name := Some (js "Ada"); req_email := Some (js "ada@x.com");
     req_password := Some (js "s3cret") |}.

Definition accounts : gmap jstring user :=
  {[ js "ada@x.com" := {| _id := js "u1"; email := js "ada@x.com";
                          password := js "salt.s3cret" |} ]}.

End AuthSamples.

(* ================================================================== *)
(** ** The parse step of the earlier server module                      *)
(* ================================================================== *)

Module Legacy.

Section Parse.

Variable JSON_parse : jstring -> option jsval.

(** The earlier handlers parse the answer directly and, failing that,
    parse the first json fenced block; [None] when the step throws. *)
Definition parse_answer (aiResponse : jstring) : option jsval :=
  match JSON_parse aiResponse with
  | Some quizData => Some quizData
  | None =>
      match Normalizer.json_fence aiResponse with
      | Some m1 => JSON_parse m1
      | None => None
      end
  end.

End Parse.

End Legacy.

(* ================================================================== *)
(** ** Notions the further properties are stated with                   *)
(* ================================================================== *)

Module Notions.

(** A string with no whitespace at either end. *)
Definition no_outer_space (s : jstring) : Prop :=
  trimStart s = s /\ trimStart (rev s) = rev s.

(** [part] occurs in [whole] as a run of consecutive code units. *)
Definition part_of (part whole : jstring) : Prop :=
  exists before after, whole = before ++ part ++ after.

End Notions.
Export Notions.

(** Closed goals about sample data are settled by evaluation. *)
Ltac by_evaluation := vm_compute; reflexivity.

(* ================================================================== *)
(** ** Properties of the attempt merge engine                          *)
(* ================================================================== *)

Section MergeFacts.

Import Attempts.

Lemma put_proto (v : jsval) (o : gmap jstring jsval) :
  put (js "__proto__") v o = o.
Proof. done. Qed.

Lemma put_other (k : jstring) (v : jsval) (o : gmap jstring jsval) :
  k <> js "__proto__" -> put k v o = <[k := v]> o.
Proof. intros Hk. unfold put. by destruct (decide (k = js "__proto__")). Qed.

(** A loop over the keys of [src] that assigns [acc[k] = src[k]] for the
    keys it keeps and leaves the other keys alone: the assignment under
    __proto__ defines nothing. *)
Lemma lookup_forEach_key (keep : jstring -> jsval -> bool)
    (body : jstring -> jsval -> gmap jstring jsval -> gmap jstring jsval)
    (src acc : gmap jstring jsval) (k : jstring) :
  (forall i v t, body i v t = if keep i v then put i v t else t) ->
  forEach_key src body acc !! k =
    if decide (k = js "__proto__") then acc !! k
    else match src !! k with
         | Some v => if keep k v then Some v else acc !! k
         | None => acc !! k
         end.
Proof.
  intros Hbody. unfold forEach_key.
  apply (map_fold_weak_ind (fun r m =>
    r !! k = if decide (k = js "__proto__") then acc !! k
             else match m !! k with
                  | Some v => if keep k v then Some v else acc !! k
                  | None => acc !! k
                  end)).
  - rewrite lookup_empty. by destruct (decide (k = js "__proto__")).
  - intros i x m r Hi IH. rewrite Hbody.
    destruct (decide (k = js "__proto__")) as [->|Hproto].
    + destruct (keep i x); [|exact IH].
      destruct (decide (i = js "__proto__")) as [->|Hne].
      * by rewrite put_proto.
      * rewrite put_other, lookup_insert_ne by done. exact IH.
    + destruct (decide (i = k)) as [->|Hne].
      * rewrite (lookup_insert_eq m). destruct (keep k x).
        -- by rewrite put_other, lookup_insert_eq.
        -- by rewrite IH, Hi.
      * rewrite (lookup_insert_ne m) by done.
        destruct (keep i x); [|exact IH].
        destruct (decide (i = js "__proto__")) as [->|Hi'].
        -- by rewrite put_proto.
        -- rewrite put_other, lookup_insert_ne by done. exact IH.
Qed.

(** The copy [Object.assign({}, m)] holds the members of [m] but one
    named __proto__. *)
Lemma lookup_assign_empty (m : gmap jstring jsval) (k : jstring) :
  assign ∅ m !! k = if decide (k = js "__proto__") then None else m !! k.
Proof.
  unfold assign.
  rewrite (lookup_forEach_key (fun _ _ => true)) by done.
  rewrite lookup_empty. destruct (decide (k = js "__proto__")); [done|].
  by destruct (m !! k).
Qed.

Lemma lookup_prior_answers (existing : option attempt) (k : jstring) :
  prior_answers existing !! k =
    if decide (k = js "__proto__") then None
    else existing ≫= (fun a => answers a !! k).
Proof.
  destruct existing; simpl.
  - apply lookup_assign_empty.
  - rewrite lookup_empty. by destruct (decide (k = js "__proto__")).
Qed.

Lemma lookup_prior_progress (existing : option attempt) (k : jstring) :
  prior_progress existing !! k =
    if decide (k = js "__proto__") then None
    else existing ≫= (fun a => progress a !! k).
Proof.
  destruct existing; simpl.
  - apply lookup_assign_empty.
  - rewrite lookup_empty. by destruct (decide (k = js "__proto__")).
Qed.

Lemma lookup_mergedAnswers (existing : option attempt)
    (inc : gmap jstring jsval) (k : jstring) :
  mergedAnswers existing inc !! k =
    if decide (k = js "__proto__") then None
    else match inc !! k with
         | Some v =>
             if empty_value v then existing ≫= (fun a => answers a !! k)
             else Some v
         | None => existing ≫= (fun a => answers a !! k)
         end.
Proof.
  unfold mergedAnswers.
  rewrite (lookup_forEach_key (fun _ v => negb (empty_value v))).
  - rewrite lookup_prior_answers.
    destruct (decide (k = js "__proto__")); [done|].
    destruct (inc !! k) as [v|]; [|done]. by destruct (empty_value v).
  - intros i v t. destruct v as [| | |s| |]; simpl; try done. by destruct (blank s).
Qed.

Lemma lookup_mergedProgress (existing : option attempt)
    (inc : gmap jstring jsval) (k : jstring) :
  mergedProgress existing inc !! k =
    if decide (k = js "__proto__") then None
    else match inc !! k with
         | Some JNull | None => existing ≫= (fun a => progress a !! k)
         | Some v => Some v
         end.
Proof.
  unfold mergedProgress.
  rewrite (lookup_forEach_key
             (fun _ v => match v with JNull => false | _ => true end)).
  - rewrite lookup_prior_progress.
    destruct (decide (k = js "__proto__")); [done|].
    destruct (inc !! k) as [[]|]; done.
  - intros i v t. by destruct v.
Qed.

Lemma question_key_not_proto (k : jstring) :
  is_question_key k = true -> k <> js "__proto__".
Proof. by intros Hk ->. Qed.

(** The collected incoming answers: a top-level qN key, else the nested
    mapping; never a key named __proto__. *)
Lemma lookup_incomingAnswers (incoming : jsval) (k : jstring) :
  incomingAnswers incoming !! k =
    if decide (k = js "__proto__") then None
    else match get incoming k with
         | Some v => if is_question_key k then Some v else nested_answers incoming !! k
         | None => nested_answers incoming !! k
         end.
Proof.
  unfold incomingAnswers, get.
  rewrite (lookup_forEach_key (fun i _ => is_question_key i)) by done.
  rewrite (lookup_forEach_key (fun _ _ => true)) by done.
  rewrite lookup_empty. destruct (decide (k = js "__proto__")); [done|].
  destruct (entries incoming !! k), (nested_answers incoming !! k); done.
Qed.

Lemma incoming_of_get (body : jsval) (k : jstring) (v : jsval) :
  get body k = Some v -> incoming_of body = body.
Proof.
  unfold incoming_of, get. intros H.
  destruct body as [|[]|n|[|c s]|l|m]; simpl in *; done.
Qed.

(** A cast of an update path succeeds or fails whatever is stored. *)
Lemma set_path_is_Some (cast : jstring -> jsval -> option jsval)
    (path : jstring) (update stored stored' : option jsval) :
  is_Some (set_path cast path update stored)
  <-> is_Some (set_path cast path update stored').
Proof. destruct update as [v|]; simpl; [done|]. split; by eauto. Qed.

(** Setting a path again with the same update changes nothing. *)
Lemma set_path_again (cast : jstring -> jsval -> option jsval)
    (path : jstring) (update stored x : option jsval) :
  set_path cast path update stored = Some x ->
  set_path cast path update x = Some x.
Proof. destruct update as [v|]; simpl; [done|]. by intros [= ->]. Qed.

(** What a path holds after a [$set]. *)
Lemma set_path_value (cast : jstring -> jsval -> option jsval)
    (path : jstring) (update stored x : option jsval) :
  set_path cast path update stored = Some x ->
  (forall v, update = Some v -> exists v', cast path v = Some v' /\ x = Some v')
  /\ (update = None -> x = stored).
Proof.
  destruct update as [v|]; simpl.
  - destruct (cast path v) as [v'|] eqn:Hcast; [|done]. intros [= <-].
    split; [|done]. intros ? [= <-]. by exists v'.
  - intros [= <-]. by split.
Qed.

End MergeFacts.

Section MergeClaims.

Import Attempts AttemptStore.

Variable cast : jstring -> jsval -> option jsval.

(** The upsert throws exactly when a path of the payload fails its cast;
    when it does not, the stored document takes its answers, progress,
    id and date from the update. *)
Lemma findOneAndUpdate_castable (existing : option attempt) (body : jsval)
    (id : jstring) (now : Z) :
  if castable cast body
  then exists upsert,
         findOneAndUpdate cast existing (merge existing body id now) = Some upsert
         /\ Attempts.id upsert = id
         /\ answers upsert = answers (merge existing body id now)
         /\ progress upsert = progress (merge existing body id now)
         /\ submittedAt upsert = now
         /\ set_path cast (js "quizId") (get body (js "quizId"))
              (existing ≫= quizId) = Some (quizId upsert)
         /\ set_path cast (js "email") (get body (js "email"))
              (existing ≫= email) = Some (email upsert)
         /\ set_path cast (js "score") (get body (js "score"))
              (existing ≫= score) = Some (score upsert)
         /\ set_path cast (js "totalQuestions") (get body (js "totalQuestions"))
              (existing ≫= totalQuestions) = Some (totalQuestions upsert)
         /\ set_path cast (js "submitted") (get body (js "submitted"))
              (match existing with
               | Some a => submitted a
               | None => Some (JBool false)
               end) = Some (submitted upsert)
  else findOneAndUpdate cast existing (merge existing body id now) = None.
Proof.
  unfold castable, Attempts.findOneAndUpdate. cbn [merge quizId email score
    totalQuestions submitted Attempts.id answers progress submittedAt].
  set (stored := match existing with
                 | Some a => submitted a
                 | None => Some (JBool false)
                 end).
  destruct (bool_decide _) eqn:Hcast.
  - apply bool_decide_eq_true in Hcast as (Hq & He & Hs & Ht & Hb).
    apply (set_path_is_Some _ _ _ _ (existing ≫= quizId)) in Hq as [q Hq].
    apply (set_path_is_Some _ _ _ _ (existing ≫= email)) in He as [e He].
    apply (set_path_is_Some _ _ _ _ (existing ≫= score)) in Hs as [sc Hs].
    apply (set_path_is_Some _ _ _ _ (existing ≫= totalQuestions)) in Ht as [t Ht].
    apply (set_path_is_Some _ _ _ _ stored) in Hb as [sb Hb].
    rewrite Hq, He, Hs, Ht, Hb. cbn [mbind option_bind].
    eexists. split; [reflexivity|]. by repeat split.
  - apply bool_decide_eq_false in Hcast.
    destruct (set_path cast (js "quizId") (get body (js "quizId"))
                (existing ≫= quizId)) as [q|] eqn:Hq; [|done].
    destruct (set_path cast (js "email") (get body (js "email"))
                (existing ≫= email)) as [e|] eqn:He; [|done].
    destruct (set_path cast (js "score") (get body (js "score"))
                (existing ≫= score)) as [sc|] eqn:Hs; [|done].
    destruct (set_path cast (js "totalQuestions") (get body (js "totalQuestions"))
                (existing ≫= totalQuestions)) as [t|] eqn:Ht; [|done].
    destruct (set_path cast (js "submitted") (get body (js "submitted")) stored)
      as [sb|] eqn:Hb; [|done].
    exfalso. apply Hcast. repeat split.
    + apply (set_path_is_Some _ _ _ (existing ≫= quizId)). by eexists.
    + apply (set_path_is_Some _ _ _ (existing ≫= email)). by eexists.
    + apply (set_path_is_Some _ _ _ (existing ≫= score)). by eexists.
    + apply (set_path_is_Some _ _ _ (existing ≫= totalQuestions)). by eexists.
    + apply (set_path_is_Some _ _ _ stored). by eexists.
Qed.

(** The two outcomes of a call whose id could be built. *)
Lemma post_attempts_cases (body : jsval) (now : Z) (db : gmap jstring attempt)
    (id : jstring) :
  attempt_id body = Ok id ->
  (castable cast body = false
   /\ post_attempts cast body now db = (StoreError, db))
  \/ (castable cast body = true
      /\ exists upsert,
           post_attempts cast body now db = (Saved upsert, <[id := upsert]> db)
           /\ findOneAndUpdate cast (db !! id) (merge (db !! id) body id now)
              = Some upsert
           /\ answers upsert = answers (merge (db !! id) body id now)
           /\ progress upsert = progress (merge (db !! id) body id now)).
Proof.
  intros Hid. unfold Attempts.post_attempts. rewrite Hid. cbn zeta.
  pose proof (findOneAndUpdate_castable (db !! id) body id now) as Hcast.
  destruct (castable cast body).
  - destruct Hcast as (upsert & Hup & _ & Ha & Hp & _). right. split; [done|].
    exists upsert. by rewrite Hup.
  - left. by rewrite Hcast.
Qed.



(** C1 (as amended).  After POST /api/attempts on a stored attempt, a key
    of the stored answers other than __proto__ whose value is not empty
    (neither null nor a string of only whitespace) still has a value that
    is not empty: the stored value itself when the payload brings
    nothing, null or a string of only whitespace for the key, and
    otherwise the stored value or the value the payload brings.  A key
    of the stored progress other than __proto__ whose value is not null
    still has a value that is not null: the stored value itself when the
    payload brings nothing or null for the key, and otherwise the stored
    value or the value the payload brings. *)
Theorem post_attempts_monotonic (body : jsval) (now : Z)
    (db : gmap jstring attempt) (id : jstring) (a : attempt) :
  attempt_id body = Ok id ->
  db !! id = Some a ->
  exists a',
    snd (post_attempts cast body now db) !! id = Some a'
    /\ (forall k v, k <> js "__proto__" ->
          answers a !! k = Some v -> empty_value v = false ->
          exists v',
            answers a' !! k = Some v' /\ empty_value v' = false
            /\ (v' = v \/ incomingAnswers (incoming_of body) !! k = Some v')
            /\ (incomingAnswers (incoming_of body) !! k = None -> v' = v)
            /\ (forall x, incomingAnswers (incoming_of body) !! k = Some x ->
                  empty_value x = true -> v' = v))
    /\ (forall k v, k <> js "__proto__" ->
          progress a !! k = Some v -> v <> JNull ->
          exists v',
            progress a' !! k = Some v' /\ v' <> JNull
            /\ (v' = v \/ incomingProgress (incoming_of body) !! k = Some v')
            /\ (incomingProgress (incoming_of body) !! k = None -> v' = v)
            /\ (incomingProgress (incoming_of body) !! k = Some JNull -> v' = v)).
Proof.
  intros Hid Ha.
  destruct (post_attempts_cases body now db id Hid)
    as [[_ ->]|(_ & upsert & -> & _ & Hanswers & Hprogress)]; cbn [snd].
  - exists a. split; [exact Ha|]. split.
    + intros k v _ Hk Hv. exists v. repeat split; by auto.
    + intros k v _ Hk Hv. exists v. repeat split; by auto.
  - rewrite lookup_insert_eq. exists upsert. split; [done|].
    rewrite Hanswers, Hprogress, Ha. split.
    + intros k v Hproto Hk Hv. simpl. rewrite lookup_mergedAnswers.
      destruct (decide (k = js "__proto__")); [done|]. simpl. rewrite Hk.
      destruct (incomingAnswers (incoming_of body) !! k) as [w|].
      * destruct (empty_value w) eqn:Hw.
        -- exists v. repeat split; by auto.
        -- exists w. repeat split; try by auto. intros x [= <-]. congruence.
      * exists v. repeat split; by auto.
    + intros k v Hproto Hk Hv. simpl. rewrite lookup_mergedProgress.
      destruct (decide (k = js "__proto__")); [done|]. simpl. rewrite Hk.
      destruct (incomingProgress (incoming_of body) !! k) as [w|].
      * destruct w; try (eexists; repeat split; by auto).
      * exists v. repeat split; by auto.
Qed.

(** C5. Retrying POST /api/attempts with the same payload changes
    nothing: the second call, which finds the result of the first as the
    stored attempt, replies with and stores the attempt that a single
    call at that time replies with and stores. *)
Theorem post_attempts_idempotent (body : jsval) (t1 t2 : Z)
    (db : gmap jstring attempt) :
  post_attempts cast body t2 (snd (post_attempts cast body t1 db))
  = post_attempts cast body t2 db.
Proof.
  destruct (attempt_id body) as [id|e] eqn:Hid;
    [|unfold Attempts.post_attempts; by rewrite Hid].
  destruct (post_attempts_cases body t1 db id Hid)
    as [[_ ->]|(Hcast & first & -> & Hfirst & Ha1 & Hp1)]; cbn [snd]; [done|].
  unfold Attempts.post_attempts. rewrite Hid. cbn zeta.
  rewrite lookup_insert_eq.
  pose proof (findOneAndUpdate_castable (db !! id) body id t1) as H1.
  pose proof (findOneAndUpdate_castable (db !! id) body id t2) as H2.
  pose proof (findOneAndUpdate_castable (Some first) body id t2) as H3.
  rewrite Hcast in H1, H2, H3.
  destruct H1 as (u1 & Hu1 & _ & _ & _ & _ & Hq1 & He1 & Hs1 & Ht1 & Hb1).
  rewrite Hfirst in Hu1. injection Hu1 as <-.
  destruct H2 as (u2 & -> & Hi2 & Ha2 & Hp2 & Hd2 & Hq2 & He2 & Hs2 & Ht2 & Hb2).
  destruct H3 as (u3 & -> & Hi3 & Ha3 & Hp3 & Hd3 & Hq3 & He3 & Hs3 & Ht3 & Hb3).
  rewrite insert_insert_eq.
  assert (Hsame : u3 = u2); [|by rewrite Hsame].
  cbn [mbind option_bind] in Hq3, He3, Hs3, Ht3, Hb3.
  rewrite (set_path_again _ _ _ _ _ Hq1) in Hq3.
  rewrite (set_path_again _ _ _ _ _ He1) in He3.
  rewrite (set_path_again _ _ _ _ _ Hs1) in Hs3.
  rewrite (set_path_again _ _ _ _ _ Ht1) in Ht3.
  rewrite (set_path_again _ _ _ _ _ Hb1) in Hb3.
  assert (Hq : quizId u3 = quizId u2).
  { destruct (get body (js "quizId")); simpl in *; congruence. }
  assert (He : email u3 = email u2).
  { destruct (get body (js "email")); simpl in *; congruence. }
  assert (Hs : score u3 = score u2).
  { destruct (get body (js "score")); simpl in *; congruence. }
  assert (Ht : totalQuestions u3 = totalQuestions u2).
  { destruct (get body (js "totalQuestions")); simpl in *; congruence. }
  assert (Hb : submitted u3 = submitted u2).
  { destruct (get body (js "submitted")); simpl in *; congruence. }
  assert (Ha : answers u3 = answers u2).
  { rewrite Ha3, Ha2. cbn [answers merge]. apply map_eq; intros k.
    rewrite !lookup_mergedAnswers. destruct (decide (k = js "__proto__")); [done|].
    simpl. rewrite Ha1. cbn [answers merge]. rewrite lookup_mergedAnswers.
    destruct (decide (k = js "__proto__")); [done|].
    destruct (incomingAnswers (incoming_of body) !! k) as [v|]; [|done].
    by destruct (empty_value v). }
  assert (Hp : progress u3 = progress u2).
  { rewrite Hp3, Hp2. cbn [progress merge]. apply map_eq; intros k.
    rewrite !lookup_mergedProgress. destruct (decide (k = js "__proto__")); [done|].
    simpl. rewrite Hp1. cbn [progress merge]. rewrite lookup_mergedProgress.
    destruct (decide (k = js "__proto__")); [done|].
    destruct (incomingProgress (incoming_of body) !! k) as [[]|]; done. }
  destruct u3, u2. simpl in *. congruence.
Qed.

(** C7 (as amended).  A call of POST /api/attempts whose id can be built
    is refused by the store, which then stays as it was, exactly when a
    value the payload defines fails the cast of its path.  Otherwise the
    attempt it stores and returns has the time of the call as
    submittedAt, and for each of score, totalQuestions and submitted:
    the value of the payload as the store casts it when the payload
    defines the field, whatever was stored, and the stored value (for a
    new attempt none, and false for submitted) when it does not.  So,
    the cast keeping a boolean as it is, a stored submitted:true is
    overwritten by a payload with submitted:false. *)
Theorem post_attempts_overwrites (body : jsval) (now : Z)
    (db : gmap jstring attempt) (id : jstring) :
  attempt_id body = Ok id ->
  (castable cast body = false
   /\ post_attempts cast body now db = (StoreError, db))
  \/ (castable cast body = true
      /\ exists doc,
           post_attempts cast body now db = (Saved doc, <[id := doc]> db)
           /\ submittedAt doc = now
           /\ (forall v, get body (js "score") = Some v ->
                 exists v', cast (js "score") v = Some v' /\ score doc = Some v')
           /\ (get body (js "score") = None -> score doc = db !! id ≫= score)
           /\ (forall v, get body (js "totalQuestions") = Some v ->
                 exists v', cast (js "totalQuestions") v = Some v'
                            /\ totalQuestions doc = Some v')
           /\ (get body (js "totalQuestions") = None ->
               totalQuestions doc = db !! id ≫= totalQuestions)
           /\ (forall v, get body (js "submitted") = Some v ->
                 exists v', cast (js "submitted") v = Some v'
                            /\ submitted doc = Some v')
           /\ (get body (js "submitted") = None ->
               submitted doc = match db !! id with
                               | Some a => submitted a
                               | None => Some (JBool false)
                               end)
           /\ (forall a, db !! id = Some a ->
                 submitted a = Some (JBool true) ->
                 get body (js "submitted") = Some (JBool false) ->
                 cast (js "submitted") (JBool false) = Some (JBool false) ->
                 submitted doc = Some (JBool false))).
Proof.
  intros Hid.
  destruct (post_attempts_cases body now db id Hid)
    as [Hrefused|(Hcast & doc & Hpost & Hup & _)]; [by left|].
  right. split; [done|]. exists doc. split; [done|].
  pose proof (findOneAndUpdate_castable (db !! id) body id now) as H.
  rewrite Hcast in H. destruct H as (u & Hu & _ & _ & _ & Hd & _ & _ & Hs & Ht & Hb).
  rewrite Hup in Hu. injection Hu as <-.
  destruct (set_path_value _ _ _ _ _ Hs) as [Hs1 Hs2].
  destruct (set_path_value _ _ _ _ _ Ht) as [Ht1 Ht2].
  destruct (set_path_value _ _ _ _ _ Hb) as [Hb1 Hb2].
  repeat split; try done.
  intros a _ _ Hfalse Hkept. destruct (Hb1 _ Hfalse) as (v' & Hv' & ->).
  congruence.
Qed.

(** C7, as stated, fails for a payload that leaves the three fields out:
    the attempt that is stored and returned keeps the stored score 1,
    totalQuestions 3 and submitted true. *)
Lemma omitted_fields_keep_the_stored_values :
  get Samples.progress_only (js "score") = None
  /\ get Samples.progress_only (js "totalQuestions") = None
  /\ get Samples.progress_only (js "submitted") = None
  /\ exists doc,
       Attempts.post_attempts Samples.cast Samples.progress_only 2000
         Samples.attempts_db
       = (Saved doc, <[js "quiz1::a@x.com" := doc]> Samples.attempts_db)
       /\ score doc = Some (JNum 1)
       /\ totalQuestions doc = Some (JNum 3)
       /\ submitted doc = Some (JBool true)
       /\ submittedAt doc = 2000%Z.
Proof.
  split; [by_evaluation|]. split; [by_evaluation|]. split; [by_evaluation|].
  eexists. split; [by_evaluation|]. repeat split.
Qed.

(** C10. A key of the form q followed by digits at the top level of the
    payload decides the incoming answer for that key, whatever the nested
    answers mapping holds for it; the merge then treats that top-level
    value by its per-key rules. *)
Theorem top_level_answer_wins (body : jsval) (k : jstring) (top : jsval) :
  is_question_key k = true ->
  get body k = Some top ->
  incomingAnswers (incoming_of body) !! k = Some top
  /\ forall existing id now,
       answers (merge existing body id now) !! k =
         if empty_value top then existing ≫= (fun a => answers a !! k)
         else Some top.
Proof.
  intros Hk Hget. pose proof (question_key_not_proto k Hk) as Hproto.
  assert (Hinc : incomingAnswers (incoming_of body) !! k = Some top).
  { rewrite (incoming_of_get body k top Hget), lookup_incomingAnswers.
    destruct (decide (k = js "__proto__")); [done|]. by rewrite Hget, Hk. }
  split; [exact Hinc|]. intros existing id now. simpl.
  rewrite lookup_mergedAnswers, Hinc.
  by destruct (decide (k = js "__proto__")).
Qed.

End MergeClaims.

Section MergeWitnesses.

Import Attempts AttemptStore.

Lemma post_attempts_monotonic_witness :
  exists a',
    snd (post_attempts Samples.cast Samples.stale_autosave 2000
           Samples.attempts_db) !! js "quiz1::a@x.com" = Some a'
    /\ (forall k v, k <> js "__proto__" ->
          answers Samples.stored_attempt !! k = Some v -> empty_value v = false ->
          exists v',
            answers a' !! k = Some v' /\ empty_value v' = false
            /\ (v' = v
                \/ incomingAnswers (incoming_of Samples.stale_autosave) !! k = Some v')
            /\ (incomingAnswers (incoming_of Samples.stale_autosave) !! k = None ->
                v' = v)
            /\ (forall x,
                  incomingAnswers (incoming_of Samples.stale_autosave) !! k = Some x ->
                  empty_value x = true -> v' = v))
    /\ (forall k v, k <> js "__proto__" ->
          progress Samples.stored_attempt !! k = Some v -> v <> JNull ->
          exists v',
            progress a' !! k = Some v' /\ v' <> JNull
            /\ (v' = v
                \/ incomingProgress (incoming_of Samples.stale_autosave) !! k = Some v')
            /\ (incomingProgress (incoming_of Samples.stale_autosave) !! k = None ->
                v' = v)
            /\ (incomingProgress (incoming_of Samples.stale_autosave) !! k = Some JNull ->
                v' = v)).
Proof.
  apply (post_attempts_monotonic Samples.cast Samples.stale_autosave
           2000 Samples.attempts_db (js "quiz1::a@x.com") Samples.stored_attempt).
  - vm_compute. reflexivity.
  - vm_compute. reflexivity.
Defined.

(** C1, as stated, fails for the progress mapping: the stored p1 is 5, the
    payload brings the empty string for p1, and the merge stores the empty
    string. *)
Lemma progress_emptied_by_blank_string :
  progress Samples.stored_attempt !! js "p1" = Some (JNum 5)
  /\ empty_value (JNum 5) = false
  /\ exists a',
       snd (post_attempts Samples.cast Samples.blank_progress 2000
              Samples.attempts_db) !! js "quiz1::a@x.com" = Some a'
       /\ progress a' !! js "p1" = Some (JStr [])
       /\ empty_value (JStr []) = true.
Proof.
  split; [vm_compute; reflexivity|]. split; [reflexivity|].
  eexists. split; [vm_compute; reflexivity|]. split; vm_compute; reflexivity.
Qed.

Lemma post_attempts_overwrites_witness :
  (castable Samples.cast Samples.stale_autosave = false
   /\ post_attempts Samples.cast Samples.stale_autosave 2000 Samples.attempts_db
      = (StoreError, Samples.attempts_db))
  \/ (castable Samples.cast Samples.stale_autosave = true
      /\ exists doc,
           post_attempts Samples.cast Samples.stale_autosave 2000
             Samples.attempts_db
           = (Saved doc, <[js "quiz1::a@x.com" := doc]> Samples.attempts_db)
           /\ submittedAt doc = 2000%Z
           /\ (forall v, get Samples.stale_autosave (js "score") = Some v ->
                 exists v', Samples.cast (js "score") v = Some v'
                            /\ score doc = Some v')
           /\ (get Samples.stale_autosave (js "score") = None ->
               score doc = Samples.attempts_db !! js "quiz1::a@x.com" ≫= score)
           /\ (forall v, get Samples.stale_autosave (js "totalQuestions") = Some v ->
                 exists v', Samples.cast (js "totalQuestions") v = Some v'
                            /\ totalQuestions doc = Some v')
           /\ (get Samples.stale_autosave (js "totalQuestions") = None ->
               totalQuestions doc
               = Samples.attempts_db !! js "quiz1::a@x.com" ≫= totalQuestions)
           /\ (forall v, get Samples.stale_autosave (js "submitted") = Some v ->
                 exists v', Samples.cast (js "submitted") v = Some v'
                            /\ submitted doc = Some v')
           /\ (get Samples.stale_autosave (js "submitted") = None ->
               submitted doc
               = match Samples.attempts_db !! js "quiz1::a@x.com" with
                 | Some a => submitted a
                 | None => Some (JBool false)
                 end)
           /\ (forall a, Samples.attempts_db !! js "quiz1::a@x.com" = Some a ->
                 submitted a = Some (JBool true) ->
                 get Samples.stale_autosave (js "submitted") = Some (JBool false) ->
                 Samples.cast (js "submitted") (JBool false) = Some (JBool false) ->
                 submitted doc = Some (JBool false))).
Proof.
  apply (post_attempts_overwrites Samples.cast Samples.stale_autosave
           2000 Samples.attempts_db (js "quiz1::a@x.com")).
  vm_compute. reflexivity.
Defined.

(** The stored attempt is submitted and the stale autosave is not: the
    call un-submits it. *)
Example stale_autosave_unsubmits :
  submitted Samples.stored_attempt = Some (JBool true)
  /\ exists doc,
       fst (post_attempts Samples.cast Samples.stale_autosave 2000
              Samples.attempts_db) = Saved doc
       /\ submitted doc = Some (JBool false).
Proof. split; [done|]. eexists. split; [by_evaluation|done]. Qed.

Lemma top_level_answer_wins_witness :
  nested_answers Samples.both_levels !! js "q1" = Some (JStr (js "A"))
  /\ incomingAnswers (incoming_of Samples.both_levels) !! js "q1"
     = Some (JStr (js "B"))
  /\ forall existing id now,
       answers (merge existing Samples.both_levels id now) !! js "q1" =
         if empty_value (JStr (js "B"))
         then existing ≫= (fun a => answers a !! js "q1")
         else Some (JStr (js "B")).
Proof.
  split; [vm_compute; reflexivity|].
  apply (top_level_answer_wins Samples.both_levels (js "q1") (JStr (js "B"))).
  - vm_compute. reflexivity.
  - vm_compute. reflexivity.
Defined.

(** The examples of the specification: a blank answer keeps the stored
    one, a new answer replaces it, a null progress keeps the stored one. *)
Example blank_answer_keeps_the_stored_answer :
  answers (merge (Some Samples.stored_attempt)
             (obj [(js "answers", obj [(js "q1", JStr [])])]) (js "quiz1::a@x.com") 2000)
  = {[ js "q1" := JStr (js "A") ]}.
Proof. by_evaluation. Qed.

Example new_answer_replaces_the_stored_answer :
  answers (merge (Some Samples.stored_attempt)
             (obj [(js "answers", obj [(js "q1", JStr (js "B"))])]) (js "quiz1::a@x.com") 2000)
  = {[ js "q1" := JStr (js "B") ]}.
Proof. by_evaluation. Qed.

Example null_progress_keeps_the_stored_progress :
  progress (merge (Some Samples.stored_attempt)
              (obj [(js "progress", obj [(js "p1", JNull)])]) (js "quiz1::a@x.com") 2000)
  = {[ js "p1" := JNum 5 ]}.
Proof. by_evaluation. Qed.

Example stale_autosave_merges_into_the_stored_attempt :
  fst (post_attempts Samples.cast Samples.stale_autosave 2000
         Samples.attempts_db)
  = Saved {| id := js "quiz1::a@x.com";
             quizId := Some (JStr (js "quiz1"));
             email := Some (JStr (js "a@x.com"));
             answers := {[ js "q1" := JStr (js "A"); js "q2" := JStr (js "C") ]};
             progress := {[ js "p1" := JNum 5 ]};
             score := Some (JNum 0);
             totalQuestions := Some (JNum 3);
             submitted := Some (JBool false);
             submittedAt := 2000 |}.
Proof. by_evaluation. Qed.

(** The casts of the store: strings that stand for a number and a flag
    are converted, and a score that is no number is refused with the
    store as it was. *)
Example string_fields_are_cast :
  fst (post_attempts Samples.cast Samples.string_fields 2000
         Samples.attempts_db)
  = Saved {| id := js "quiz1::a@x.com";
             quizId := Some (JStr (js "quiz1"));
             email := Some (JStr (js "a@x.com"));
             answers := {[ js "q1" := JStr (js "A") ]};
             progress := {[ js "p1" := JNum 5 ]};
             score := Some (JNum 2);
             totalQuestions := Some (JNum 3);
             submitted := Some (JBool false);
             submittedAt := 2000 |}
  /\ post_attempts Samples.cast Samples.bad_score 2000
       Samples.attempts_db
     = (StoreError, Samples.attempts_db).
Proof. split; by_evaluation. Qed.

Example printed_values :
  Number_toString (-1205) = js "-1205"
  /\ Number_toString 9007199254740993 = js "9007199254740992"
  /\ Number_toString 1152921504606846976 = js "1152921504606847000"
  /\ Number_toString (10 ^ 21) = js "1e+21"
  /\ Number_toString (2 ^ 70) = js "1.1805916207174113e+21"
  /\ Number_toString (- 2 ^ 1024) = js "-Infinity"
  /\ N_toString 36 35 = js "z"
  /\ N_toString 36 1296 = js "100"
  /\ ToString (JArr [JNum 1; JNull; JArr [JStr (js "a"); JBool true]])
     = Ok (js "1,,a,true")
  /\ attempt_id (obj [(js "quizId", JNum 7)]) = Ok (js "7::undefined").
Proof. repeat split; by_evaluation. Qed.

Example question_keys :
  is_question_key (js "q12") = true
  /\ is_question_key (js "q") = false
  /\ is_question_key (js "q1a") = false
  /\ is_question_key (js "Q1") = false
  /\ is_question_key (js "q1" ++ [10%N]) = false.
Proof. repeat split. Qed.

End MergeWitnesses.

(* ================================================================== *)
(** ** Properties of the allow-list check and of the chat store        *)
(* ================================================================== *)

Section QuizClaims.

Import Quizzes.

(** C8. For a quiz with a non-empty allow-list, GET /api/quizzes/:id
    replies 403 when the email parameter is absent (undefined or empty)
    or is not in the list, and replies with the quiz and its fileUrl when
    the email is present and in the list; with an empty allow-list the
    quiz is returned whatever the email. *)
Theorem allow_list_check (req : request) (db : gmap jstring quiz) (q : quiz) :
  db !! params_id req = Some q ->
  (allowedStudents q <> [] ->
   (query_email req = None \/ query_email req = Some []
    \/ exists e, query_email req = Some e /\ e ∉ allowedStudents q) ->
   get_quiz req db = Refused 403 (js "not allowed"))
  /\ (allowedStudents q <> [] ->
      forall e, query_email req = Some e -> e <> [] -> e ∈ allowedStudents q ->
      exists fileUrl, get_quiz req db = Found q fileUrl
                      /\ status (get_quiz req db) = 200%N)
  /\ (allowedStudents q = [] ->
      exists fileUrl, get_quiz req db = Found q fileUrl
                      /\ status (get_quiz req db) = 200%N).
Proof.
  intros Hq. unfold get_quiz. rewrite Hq. split; [|split].
  - intros Hlist Hemail.
    destruct (allowedStudents q) as [|s l] eqn:Hl; [done|]. cbn [length Nat.ltb Nat.leb andb].
    destruct Hemail as [-> | [-> | (e & -> & Hnot)]]; simpl; try done.
    rewrite bool_decide_eq_false_2 by done. by rewrite orb_true_r.
  - intros Hlist e He Hne Hin.
    destruct (allowedStudents q) as [|s l] eqn:Hl; [done|]. rewrite He.
    destruct e as [|c e]; [done|]. simpl.
    rewrite bool_decide_eq_true_2 by done. simpl. eauto.
  - intros ->. simpl. eauto.
Qed.

Lemma allow_list_check_witness :
  (allowedStudents Samples.restricted_quiz <> [] ->
   (Some (js "a@x.com") = None \/ Some (js "a@x.com") = Some []
    \/ exists e, Some (js "a@x.com") = Some e /\ e ∉ allowedStudents Samples.restricted_quiz) ->
   get_quiz (Samples.quiz_request (Some (js "a@x.com"))) Samples.quizzes_db
   = Refused 403 (js "not allowed"))
  /\ (allowedStudents Samples.restricted_quiz <> [] ->
      forall e, Some (js "a@x.com") = Some e -> e <> [] ->
      e ∈ allowedStudents Samples.restricted_quiz ->
      exists fileUrl,
        get_quiz (Samples.quiz_request (Some (js "a@x.com"))) Samples.quizzes_db
        = Found Samples.restricted_quiz fileUrl
        /\ status (get_quiz (Samples.quiz_request (Some (js "a@x.com")))
                     Samples.quizzes_db) = 200%N)
  /\ (allowedStudents Samples.restricted_quiz = [] ->
      exists fileUrl,
        get_quiz (Samples.quiz_request (Some (js "a@x.com"))) Samples.quizzes_db
        = Found Samples.restricted_quiz fileUrl
        /\ status (get_quiz (Samples.quiz_request (Some (js "a@x.com")))
                     Samples.quizzes_db) = 200%N).
Proof.
  apply (allow_list_check (Samples.quiz_request (Some (js "a@x.com")))
           Samples.quizzes_db Samples.restricted_quiz).
  vm_compute. reflexivity.
Defined.

Example excluded_student_gets_403 :
  get_quiz (Samples.quiz_request (Some (js "b@x.com"))) Samples.quizzes_db
  = Refused 403 (js "not allowed").
Proof. vm_compute. reflexivity. Qed.

Example missing_email_gets_403 :
  get_quiz (Samples.quiz_request None) Samples.quizzes_db
  = Refused 403 (js "not allowed").
Proof. vm_compute. reflexivity. Qed.

Example allowed_student_gets_the_quiz :
  get_quiz (Samples.quiz_request (Some (js "a@x.com"))) Samples.quizzes_db
  = Found Samples.restricted_quiz
      (Some (js "http://localhost:3004/server/uploads/lx1-notes.png")).
Proof. vm_compute. reflexivity. Qed.

End QuizClaims.

Section ChatClaims.

Import Chats.

Variable Date_of : jsval -> option Z.

(** A call stores nothing, or stores its document under the id of that
    document. *)
Lemma post_chats_store (body : jsval) (now : Z) (db : gmap jstring chat) :
  snd (post_chats Date_of body now db) =
    match fst (post_chats Date_of body now db) with
    | Saved doc => <[id doc := doc]> db
    | _ => db
    end.
Proof.
  unfold post_chats. destruct (effectiveTeacherId body) as [tid|]; [|done].
  destruct (blank (resolvedText body)); [done|].
  by destruct (chat_doc Date_of body tid now).
Qed.

(** C9 (as amended).  The chat store is keyed by id and written by
    upsert.  Over any sequence of POST /api/chats calls a stored message
    is never removed, and it is unchanged unless an accepted call stored
    a document under its id; a call changes the store at most at the id
    of the document it stores, so a call with a new id only adds. *)
Theorem chats_kept_unless_id_reused (calls : list (jsval * Z))
    (db : gmap jstring chat) (k : jstring) (c : chat) :
  db !! k = Some c ->
  is_Some (post_all Date_of calls db !! k)
  /\ (k ∉ saved_ids Date_of calls db -> post_all Date_of calls db !! k = Some c)
  /\ (forall body now,
        snd (post_chats Date_of body now db) =
          match fst (post_chats Date_of body now db) with
          | Saved doc => <[id doc := doc]> db
          | _ => db
          end).
Proof.
  intros Hk. split; [|split; [|intros; apply post_chats_store]].
  - revert db c Hk. induction calls as [|[body now] later IH]; intros db c Hk.
    + simpl. by rewrite Hk.
    + cbn [post_all]. rewrite post_chats_store.
      destruct (fst (post_chats Date_of body now db)) as [doc| |];
        try (by eapply IH).
      destruct (decide (id doc = k)) as [<-|Hne].
      * eapply IH. apply lookup_insert_eq.
      * eapply IH. rewrite lookup_insert_ne by done. exact Hk.
  - revert db Hk. induction calls as [|[body now] later IH]; intros db Hk Hnot.
    + done.
    + cbn [post_all saved_ids] in *.
      pose proof (post_chats_store body now db) as Hstore.
      destruct (post_chats Date_of body now db) as [r db'].
      cbn [fst snd] in *. subst db'.
      destruct r as [doc| |]; try (by apply IH).
      apply not_elem_of_cons in Hnot as [Hne Hnot].
      apply IH; [|done]. by rewrite lookup_insert_ne.
Qed.

End ChatClaims.

Section ChatWitnesses.

Import Chats.

Lemma chats_kept_unless_id_reused_witness :
  is_Some (post_all Samples.date_of_number
             [(Samples.hello, 1000%Z); (Samples.bye, 2000%Z)] Samples.chats_db
           !! js "m0")
  /\ (js "m0" ∉ saved_ids Samples.date_of_number
                  [(Samples.hello, 1000%Z); (Samples.bye, 2000%Z)] Samples.chats_db ->
      post_all Samples.date_of_number
        [(Samples.hello, 1000%Z); (Samples.bye, 2000%Z)] Samples.chats_db !! js "m0"
      = Some Samples.stored_chat)
  /\ (forall body now,
        snd (post_chats Samples.date_of_number body now Samples.chats_db) =
          match fst (post_chats Samples.date_of_number body now Samples.chats_db) with
          | Saved doc => <[id doc := doc]> Samples.chats_db
          | _ => Samples.chats_db
          end).
Proof.
  apply (chats_kept_unless_id_reused Samples.date_of_number
           [(Samples.hello, 1000%Z); (Samples.bye, 2000%Z)] Samples.chats_db
           (js "m0") Samples.stored_chat).
  vm_compute. reflexivity.
Defined.

(** C9, as stated, fails when a call reuses a stored id: both payloads
    carry the id m1, both calls are accepted, and the second replaces the
    message stored by the first instead of adding an entry. *)
Lemma chat_replaced_by_same_id :
  get Samples.hello (js "id") = Some (JStr (js "m1"))
  /\ get Samples.bye (js "id") = Some (JStr (js "m1"))
  /\ forall Date_of,
       let db1 := snd (post_chats Date_of Samples.hello 1000 Samples.chats_db) in
       let db2 := snd (post_chats Date_of Samples.bye 2000 db1) in
       text <$> db1 !! js "m1" = Some (js "hello")
       /\ text <$> db2 !! js "m1" = Some (js "bye")
       /\ size db1 = 2%nat /\ size db2 = 2%nat.
Proof.
  split; [vm_compute; reflexivity|]. split; [vm_compute; reflexivity|].
  intros Date_of. repeat split; vm_compute; reflexivity.
Qed.

End ChatWitnesses.

(* ================================================================== *)
(** ** Properties of the response normaliser and the parse endpoints   *)
(* ================================================================== *)

Section ParseClaims.

Import Normalizer Generation.

Context {W : Type}.
Variable JSON_parse : jstring -> option jsval.
Variable chat_completions : payload -> W -> result jstring * W.
Variable recognize : jstring -> W -> result jstring * W.
Variable pdf_text : jstring -> W -> result jstring * W.

(** The nested try/catch blocks compute the first success in order. *)
Lemma steps_first_success (text : jstring) :
  text <> [] ->
  parseJsonLenient_steps JSON_parse text =
    (fst (spec_first_success JSON_parse spec_order text),
     default JNull (snd (spec_first_success JSON_parse spec_order text))).
Proof.
  intros Hne. destruct text as [|c text]; [done|].
  unfold parseJsonLenient_steps, spec_order.
  cbn [spec_first_success spec_strategy].
  generalize (JSON_parse (c :: text)) (JSON_parse (stripCodeFences (c :: text)))
             (brace_block (c :: text)) (json_fence (c :: text)).
  intros p1 p2 b f.
  destruct p1; [done|]. destruct p2; [done|].
  destruct b as [candidate|]; simpl.
  - destruct (JSON_parse candidate); [done|].
    destruct f as [m1|]; simpl; [|done]. by destruct (JSON_parse m1).
  - destruct f as [m1|]; simpl; [|done]. by destruct (JSON_parse m1).
Qed.


(** Which strategy fires on texts that more than one could read. *)
Example fenced_json_is_read_by_the_second_strategy :
  parseJsonLenient_steps JsonRef.JSON_parse
    (jsq "```json" ++ 10%N :: jsq "{'a':1}" ++ 10%N :: js "```")
  = ([Direct; Unfenced], obj [(js "a", JNum 1)]).
Proof. vm_compute. reflexivity. Qed.

Example prose_around_an_object_is_read_by_the_third_strategy :
  parseJsonLenient_steps JsonRef.JSON_parse
    (js "Here is the quiz: " ++ [8220%N] ++ js "a" ++ [8221%N] ++ js " {"
     ++ [8220%N] ++ js "a" ++ [8221%N] ++ js ":1} enjoy")
  = ([Direct; Unfenced; BraceBlock], obj [(js "a", JNum 1)]).
Proof. vm_compute. reflexivity. Qed.

Example late_json_fence_is_read_by_the_fourth_strategy :
  parseJsonLenient_steps JsonRef.JSON_parse
    (js "Sure { here: ```JSON [1,2] ``` bye")
  = ([Direct; Unfenced; BraceBlock; JsonFence], JArr [JNum 1; JNum 2]).
Proof. vm_compute. reflexivity. Qed.

Example nonsense_is_read_by_no_strategy :
  parseJsonLenient_steps JsonRef.JSON_parse (js "no quiz today")
  = ([Direct; Unfenced; BraceBlock; JsonFence], JNull).
Proof. vm_compute. reflexivity. Qed.

(** Past the upload check and the generation call the handler is the
    reply to the model's answer under the outer catch. *)
Lemma parse_endpoint_run (extract : jstring -> M (world W) jstring)
    (req : upload_request) (filePath text : jstring) (w w1 : world W) :
  file req = Some filePath ->
  model_answer chat_completions extract filePath (prompt req) w = (Ok text, w1) ->
  parse_endpoint JSON_parse chat_completions extract req w
  = handle (quiz_reply JSON_parse chat_completions text) w1.
Proof.
  intros Hfile Hanswer. unfold parse_endpoint, handle.
  rewrite Hfile. unfold bind. rewrite Hanswer. done.
Qed.

Lemma rejected_by_typeof (text : jstring) :
  snd (spec_first_success JSON_parse spec_order text) = None
  \/ (exists v, snd (spec_first_success JSON_parse spec_order text) = Some v
                /\ not_typeof_object v = true) ->
  negb (truthy (parseJsonLenient JSON_parse text))
  || negb (is_object (Some (parseJsonLenient JSON_parse text))) = true.
Proof.
  intros H. unfold parseJsonLenient.
  destruct (decide (text = [])) as [->|Hne]; [done|].
  rewrite steps_first_success by done. cbn [snd].
  destruct H as [H | (v & H & Hv)]; rewrite H; [done|].
  destruct v; simpl in *; try done; apply orb_true_r.
Qed.

Lemma quiz_reply_422 (text : jstring) (w : world W) :
  negb (truthy (parseJsonLenient JSON_parse text))
  || negb (is_object (Some (parseJsonLenient JSON_parse text))) = true ->
  quiz_reply JSON_parse chat_completions text w = (Ok (invalid_model_output text), w).
Proof. intros H. unfold quiz_reply. by rewrite H. Qed.

(** C3 (as amended).  When all four strategies fail on the model's
    answer, or the value they parse is null, a boolean, a number or a
    string, both parse endpoints reply 422 with the envelope ok:false, an
    error and, as raw, the first 4000 code units of the answer; the reply
    has no quiz and no hint call is made. *)
Theorem parse_endpoints_reject_invalid_output (req : upload_request)
    (filePath text : jstring) (w w1 : world W) :
  file req = Some filePath ->
  snd (spec_first_success JSON_parse spec_order text) = None
  \/ (exists v, snd (spec_first_success JSON_parse spec_order text) = Some v
                /\ not_typeof_object v = true) ->
  (model_answer chat_completions (extractImageText recognize) filePath (prompt req) w
     = (Ok text, w1) ->
   post_parse_image JSON_parse chat_completions recognize req w
     = (invalid_model_output text, w1))
  /\ (model_answer chat_completions (extractPdfText pdf_text) filePath (prompt req) w
        = (Ok text, w1) ->
      post_parse_pdf JSON_parse chat_completions pdf_text req w
        = (invalid_model_output text, w1))
  /\ status_of (invalid_model_output text) = 422%N
  /\ get (body_of (invalid_model_output text)) (js "ok") = Some (JBool false)
  /\ get (body_of (invalid_model_output text)) (js "raw") = Some (JStr (take 4000 text))
  /\ take 4000 text `prefix_of` text
  /\ length (take 4000 text) <= 4000
  /\ get (body_of (invalid_model_output text)) (js "quiz") = None.
Proof.
  intros Hfile Hbad. apply rejected_by_typeof in Hbad.
  split; [|split].
  - intros Hanswer. unfold post_parse_image.
    rewrite (parse_endpoint_run _ _ _ _ _ _ Hfile Hanswer).
    unfold handle. by rewrite quiz_reply_422.
  - intros Hanswer. unfold post_parse_pdf.
    rewrite (parse_endpoint_run _ _ _ _ _ _ Hfile Hanswer).
    unfold handle. by rewrite quiz_reply_422.
  - split; [done|]. split; [reflexivity|]. split; [reflexivity|].
    split; [apply prefix_take|].
    split; [rewrite length_take; apply Nat.le_min_l|reflexivity].
Qed.

Lemma get_checked_ok (q : jsval) (k : jstring) :
  q <> JNull -> get_checked q k = Ok (get q k).
Proof. by destruct q. Qed.

(** One round of the loop on an element that is not null: it returns,
    posts one request exactly when the element has a question text, and
    sets the hint from the outcome of that request alone. *)
Lemma hint_question_run (q : jsval) (w : world W) :
  q <> JNull ->
  hint_question chat_completions q w =
    match question_text q with
    | None => (Ok q, w)
    | Some questionText =>
        let '(outcome, o) :=
          chat_completions (hint_payload questionText) (outside w) in
        (Ok (set q (js "hint") (JStr (hint_of outcome))),
         {| outside := o; requests := requests w ++ [hint_payload questionText] |})
    end.
Proof.
  intros Hq. unfold hint_question, question_text, js_or.
  rewrite !get_checked_ok by done. unfold bind, lift, ret.
  destruct (truthy_opt (get q (js "question"))) eqn:Hquestion.
  - destruct (get q (js "question")) as [t|]; [|done]. simpl in Hquestion.
    rewrite Hquestion. unfold try_catch, callOpenAI, hint_payload.
    destruct (chat_completions _ (outside w)) as [[hint|e] o]; done.
  - destruct (get q (js "prompt")) as [t|]; [|done].
    destruct (truthy t); [|done]. unfold try_catch, callOpenAI, hint_payload.
    destruct (chat_completions _ (outside w)) as [[hint|e] o]; done.
Qed.

(** The loop over questions none of which is null: it returns whatever
    the hint calls do, and what it does is a run of the hint pass that
    posts one request per element with a question text, in order. *)
Lemma hint_loop_run (questions : list jsval) (w : world W) :
  Forall (fun q => q <> JNull) questions ->
  exists questions' w',
    hint_loop chat_completions questions w = (Ok questions', w')
    /\ hint_run chat_completions questions (outside w) questions' (outside w')
         (List.map hint_payload (omap question_text questions))
    /\ requests w'
       = requests w ++ List.map hint_payload (omap question_text questions).
Proof.
  intros Hall. revert w.
  induction Hall as [|q later Hq _ IH]; intros w.
  - exists [], w. simpl. split; [done|]. split; [constructor|by rewrite app_nil_r].
  - cbn [hint_loop]. unfold bind at 1. rewrite hint_question_run by done.
    cbn [omap list_omap].
    destruct (question_text q) as [questionText|] eqn:Htext.
    + destruct (chat_completions (hint_payload questionText) (outside w))
        as [outcome o] eqn:Hcall.
      destruct (IH {| outside := o;
                      requests := requests w ++ [hint_payload questionText] |})
        as (later' & w' & Hrun & Hlater & Hreq).
      eexists (_ :: later'), w'. unfold bind, ret. rewrite Hrun.
      split; [reflexivity|]. split.
      * by eapply run_call.
      * rewrite Hreq. simpl. by rewrite <- app_assoc.
    + destruct (IH w) as (later' & w' & Hrun & Hlater & Hreq).
      exists (q :: later'), w'. unfold bind, ret. rewrite Hrun.
      split; [reflexivity|]. split; [by apply run_pass|done].
Qed.

(** C6 (as amended).  When the model's answer parses to an object whose
    questions are an array without a null element, a parse endpoint
    replies 200 with ok:true and the quiz whatever the hint calls do: it
    posts one hint request for each element that has a question text
    (its question, else its prompt), in order, and each such element
    carries as hint the trimmed answer of its own call, or the empty
    string when its own call failed; the other elements are unchanged. *)
Theorem hint_pass_best_effort (extract : jstring -> M (world W) jstring)
    (req : upload_request) (filePath text : jstring)
    (m : gmap jstring jsval) (questions : list jsval) (w w1 : world W) :
  file req = Some filePath ->
  model_answer chat_completions extract filePath (prompt req) w = (Ok text, w1) ->
  parseJsonLenient JSON_parse text = JObj m ->
  m !! js "questions" = Some (JArr questions) ->
  Forall (fun q => q <> JNull) questions ->
  exists questions' w',
    parse_endpoint JSON_parse chat_completions extract req w
    = (Reply 200 (obj [(js "ok", JBool true);
                       (js "quiz", JObj (<[js "questions" := JArr questions']> m))]),
       w')
    /\ hint_run chat_completions questions (outside w1) questions' (outside w')
         (List.map hint_payload (omap question_text questions))
    /\ requests w'
       = requests w1 ++ List.map hint_payload (omap question_text questions).
Proof.
  intros Hfile Hanswer Hparse Hquestions Hall.
  destruct (hint_loop_run questions w1 Hall) as (questions' & w' & Hrun & Hhinted & Hreq).
  exists questions', w'. split; [|done].
  rewrite (parse_endpoint_run _ _ _ _ _ _ Hfile Hanswer).
  unfold handle, quiz_reply. rewrite Hparse. cbn [truthy is_object typeof negb orb].
  unfold get. cbn [entries]. rewrite Hquestions.
  unfold bind, ret. by rewrite Hrun.
Qed.

End ParseClaims.

Section ParseWitnesses.

Import Normalizer Generation Samples.

Example stripCodeFences_on_a_tagged_fence :
  stripCodeFences (js "```JSON" ++ 10%N :: js "{}" ++ 10%N :: js "```")
  = js "{}" ++ [10%N].
Proof. by_evaluation. Qed.

Example stripCodeFences_on_plain_text :
  stripCodeFences (js "{} ``` ") = js "{} ``` ".
Proof. by_evaluation. Qed.

Example brace_block_of_a_sentence :
  brace_block (js "so: {" ++ [8216%N] ++ js "a" ++ [8217%N; 7%N] ++ js ":{}} ok")
  = Some (js "{'a':{}}")
  /\ brace_block (js "} nothing {") = None.
Proof. split; by_evaluation. Qed.

Example json_fence_takes_the_nearest_closing_fence :
  json_fence (js "x ```Json a ``` b ``` c") = Some (js " a ")
  /\ json_fence (js "x ```json a") = None.
Proof. split; by_evaluation. Qed.


Lemma parse_endpoints_reject_invalid_output_witness :
  Samples.post_parse_image upload (scripted [page; Ok (js "no quiz today")])
  = (invalid_model_output (js "no quiz today"),
     answered [page; Ok (js "no quiz today")])
  /\ get (body_of (invalid_model_output (js "no quiz today"))) (js "raw")
     = Some (JStr (js "no quiz today")).
Proof.
  destruct (parse_endpoints_reject_invalid_output JsonRef.JSON_parse
              (@next_line payload) (@next_line jstring) (@next_line jstring)
              upload (js "uploads/lx1-notes.png") (js "no quiz today")
              (scripted [page; Ok (js "no quiz today")])
              (answered [page; Ok (js "no quiz today")]))
    as (Himage & _ & _ & _ & Hraw & _).
  - reflexivity.
  - left. vm_compute. reflexivity.
  - split; [|exact Hraw]. apply Himage. vm_compute. reflexivity.
Defined.

(** C3, as stated, fails for an answer that parses to an array: an array
    is not a JSON object, yet the endpoint replies 200 and returns it as
    the quiz. *)
Lemma array_answer_is_returned_as_quiz :
  JsonRef.JSON_parse (js "[1, 2]") = Some (JArr [JNum 1; JNum 2])
  /\ not_json_object (JArr [JNum 1; JNum 2]) = true
  /\ fst (Samples.post_parse_image upload (scripted [page; Ok (js "[1, 2]")]))
     = Reply 200 (obj [(js "ok", JBool true); (js "quiz", JArr [JNum 1; JNum 2])])
  /\ fst (Samples.post_parse_pdf upload (scripted [page; Ok (js "[1, 2]")]))
     = Reply 200 (obj [(js "ok", JBool true); (js "quiz", JArr [JNum 1; JNum 2])]).
Proof. repeat split; vm_compute; reflexivity. Qed.

Lemma hint_pass_best_effort_witness :
  exists questions' w',
    Samples.post_parse_image upload (scripted failing_hint_script)
    = (Reply 200 (obj [(js "ok", JBool true);
                       (js "quiz", JObj (<[js "questions" := JArr questions']>
                                           two_questions_quiz))]),
       w')
    /\ hint_run (@next_line payload) [question1; question2]
         (outside (answered failing_hint_script)) questions' (outside w')
         (List.map hint_payload (omap question_text [question1; question2]))
    /\ requests w'
       = requests (answered failing_hint_script)
         ++ List.map hint_payload (omap question_text [question1; question2]).
Proof.
  apply (hint_pass_best_effort JsonRef.JSON_parse (@next_line payload)
           (extractImageText (@next_line jstring)) upload
           (js "uploads/lx1-notes.png") two_questions two_questions_quiz
           [question1; question2] (scripted failing_hint_script)
           (answered failing_hint_script)).
  - reflexivity.
  - by_evaluation.
  - by_evaluation.
  - by_evaluation.
  - repeat constructor; discriminate.
Defined.

(** The failed call of the first question leaves it an empty hint; the
    second question gets the trimmed answer of its own call. *)
Example failed_hint_call_leaves_an_empty_hint :
  fst (Samples.post_parse_image upload (scripted failing_hint_script))
  = Reply 200
      (obj [(js "ok", JBool true);
            (js "quiz",
             obj [(js "title", JStr (js "T"));
                  (js "questions",
                   JArr [set question1 (js "hint") (JStr []);
                         set question2 (js "hint") (JStr (js "think"))])])]).
Proof. vm_compute. reflexivity. Qed.

(** C6, as stated, fails when an element of questions is null: reading
    its question throws outside the inner try, the handler replies 500,
    and the second element, which has a question text, gets no hint call
    (the only request posted is the one that generated the quiz). *)
Lemma null_question_aborts_the_hint_pass :
  parseJsonLenient JsonRef.JSON_parse null_question
  = obj [(js "title", JStr (js "T")); (js "questions", JArr [JNull; question2])]
  /\ question_text question2 = Some (JStr (js "Q2"))
  /\ fst (Samples.post_parse_image upload
            (scripted [page; Ok null_question; Ok (js "a hint")]))
     = Reply 500
         (obj [(js "ok", JBool false);
               (js "error",
                JStr (js "Cannot read properties of null (reading 'question')"))])
  /\ length (requests (snd (Samples.post_parse_image upload
                              (scripted [page; Ok null_question; Ok (js "a hint")]))))
     = 1%nat.
Proof. repeat split; vm_compute; reflexivity. Qed.

End ParseWitnesses.

(* ================================================================== *)
(** ** Further properties: strings and the text extractors              *)
(* ================================================================== *)

Section TrimFacts.

Lemma trimStart_spaces (ws s : jstring) :
  forallb is_space ws = true -> trimStart (ws ++ s) = trimStart s.
Proof.
  induction ws as [|c ws IH]; [done|]. simpl.
  intros [Hc Hws]%andb_prop. rewrite Hc. by apply IH.
Qed.

Lemma trimStart_suffix (s : jstring) : trimStart s `suffix_of` s.
Proof.
  induction s as [|c s IH]; [done|]. simpl.
  destruct (is_space c); [by apply suffix_cons_r|done].
Qed.

Lemma trimStart_head (s : jstring) (c : N) (r : jstring) :
  trimStart s = c :: r -> is_space c = false.
Proof.
  induction s as [|d s IH]; [done|]. simpl.
  destruct (is_space d) eqn:Hd; [done|]. by intros [= <- _].
Qed.

Lemma trimStart_fixed (s : jstring) :
  match s with c :: _ => is_space c = false | [] => True end -> trimStart s = s.
Proof. destruct s as [|c s]; [done|]. simpl. by intros ->. Qed.

Lemma trimStart_idemp (s : jstring) : trimStart (trimStart s) = trimStart s.
Proof.
  apply trimStart_fixed. destruct (trimStart s) as [|c r] eqn:H; [done|].
  by eapply trimStart_head.
Qed.

Lemma trimStart_nil (s : jstring) : trimStart s = [] <-> blank s = true.
Proof.
  induction s as [|c s IH]; [done|]. simpl.
  destruct (is_space c); [done|]. split; done.
Qed.

Lemma blank_rev (s : jstring) : blank (rev s) = blank s.
Proof.
  unfold blank. induction s as [|c s IH]; [done|]. simpl.
  rewrite forallb_app, IH. simpl. rewrite andb_true_r. apply andb_comm.
Qed.

Lemma blank_suffix (s t : jstring) :
  s `suffix_of` t -> blank t = true -> blank s = true.
Proof.
  intros [p ->]. unfold blank. rewrite forallb_app. by intros [_ ?]%andb_prop.
Qed.

(** The two tests of emptiness the extractors use agree. *)
Lemma trim_nil (s : jstring) : trim s = [] <-> blank s = true.
Proof.
  unfold trim. split.
  - intros H. destruct (trimStart (rev (trimStart s))) as [|c r] eqn:Hr.
    + apply trimStart_nil in Hr. rewrite blank_rev in Hr.
      apply trimStart_nil in Hr. rewrite trimStart_idemp in Hr.
      by apply trimStart_nil.
    + simpl in H. by destruct (rev r).
  - intros H. apply trimStart_nil in H. rewrite H. done.
Qed.

Lemma trim_no_outer_space (s : jstring) : no_outer_space (trim s).
Proof.
  unfold no_outer_space, trim. rewrite rev_involutive, trimStart_idemp.
  split; [|done].
  apply trimStart_fixed.
  destruct (rev (trimStart (rev (trimStart s)))) as [|c r] eqn:Hr; [done|].
  destruct (trimStart_suffix (rev (trimStart s))) as [p Hp].
  apply (f_equal (@rev N)) in Hp. rewrite rev_involutive, rev_app_distr, Hr in Hp.
  simpl in Hp. eapply trimStart_head. exact Hp.
Qed.

Lemma trim_part (s : jstring) : part_of (trim s) s.
Proof.
  unfold part_of, trim.
  destruct (trimStart_suffix s) as [before Hs].
  destruct (trimStart_suffix (rev (trimStart s))) as [p Hp].
  exists before, (rev p). rewrite Hs at 1. f_equal.
  apply (f_equal (@rev N)) in Hp. rewrite rev_involutive, rev_app_distr in Hp.
  done.
Qed.

End TrimFacts.

Section ExtractorFacts.

Import Generation.

Context {W : Type}.

(** X1. Both text extractors return the engine's text trimmed, and only
    when something is left of it: the returned text is not empty, has no
    whitespace at either end and is a part of the engine's text; a text
    of nothing but whitespace makes each extractor throw its own error.
    Neither posts a generation request. *)
Theorem extractors_trim_or_refuse (engine : jstring -> W -> result jstring * W)
    (filePath raw : jstring) (w : world W) (o : W) :
  engine (forward_slashes filePath) (outside w) = (Ok raw, o) ->
  extractImageText engine filePath w
    = (if blank raw then Throw (Error (js "No text extracted from image"))
       else Ok (trim raw),
       {| outside := o; requests := requests w |})
  /\ extractPdfText engine filePath w
    = (if blank raw then Throw (Error (js "No text extracted from PDF"))
       else Ok (trim raw),
       {| outside := o; requests := requests w |})
  /\ (blank raw = false ->
      trim raw <> [] /\ no_outer_space (trim raw) /\ part_of (trim raw) raw).
Proof.
  intros Hengine. split; [|split].
  - unfold extractImageText, bind, outside_call. rewrite Hengine.
    by destruct (blank raw).
  - unfold extractPdfText, bind, outside_call. rewrite Hengine.
    destruct (blank raw) eqn:Hraw.
    + apply trim_nil in Hraw. by rewrite Hraw.
    + destruct (trim raw) eqn:Htrim; [|done].
      apply trim_nil in Htrim. congruence.
  - intros Hraw. split; [|split; [apply trim_no_outer_space|apply trim_part]].
    intros Htrim%trim_nil. congruence.
Qed.

End ExtractorFacts.

Section ExtractorWitness.

Import Generation Samples.

Lemma extractors_trim_or_refuse_witness :
  extractImageText (@next_line jstring) (js "uploads\\a.png") (scripted [page])
  = (Ok (js "page text"), scripted [])
  /\ extractPdfText (@next_line jstring) (js "uploads\\a.png") (scripted [page])
  = (Ok (js "page text"), scripted []).
Proof.
  destruct (extractors_trim_or_refuse (@next_line jstring) (js "uploads\\a.png")
              (js " page text ") (scripted [page]) [])
    as (Himage & Hpdf & _); [reflexivity|].
  split; [exact Himage|exact Hpdf].
Defined.

End ExtractorWitness.

(* ================================================================== *)
(** ** Further properties: the candidates of the lenient parser         *)
(* ================================================================== *)

Section FenceFacts.

Import Normalizer.

Lemma starts_with_app (ci : bool) (p q s : jstring) :
  (if ci then List.map lower q = List.map lower p else q = p) ->
  starts_with ci p (q ++ s) = true.
Proof.
  revert q. induction p as [|a p IH]; intros q Hq; [done|].
  destruct q as [|c q]; [by destruct ci|]. simpl.
  destruct ci; injection Hq as Hc Hq.
  - rewrite Hc, N.eqb_refl. simpl. by apply IH.
  - subst c q. rewrite N.eqb_refl. simpl. by apply IH.
Qed.

Lemma starts_with_prefix (p s : jstring) :
  starts_with false p s = true -> exists r, s = p ++ r.
Proof.
  revert s. induction p as [|a p IH]; intros s; [by exists s|].
  destruct s as [|c s]; [done|]. simpl.
  intros [Hc Hs]%andb_prop. apply N.eqb_eq in Hc as ->.
  destruct (IH s Hs) as [r ->]. by exists r.
Qed.

Lemma strip_leading_fence_suffix (s : jstring) :
  strip_leading_fence s `suffix_of` s.
Proof.
  unfold strip_leading_fence.
  destruct (starts_with false (js "```") s); [|done].
  etrans; [apply trimStart_suffix|].
  assert (Hdrop : forall n (t : jstring), drop n t `suffix_of` t).
  { intros n t. exists (take n t). by rewrite take_drop. }
  destruct (_ || _); [etrans|]; apply Hdrop.
Qed.

Lemma strip_trailing_fence_prefix (s : jstring) :
  strip_trailing_fence s `prefix_of` s.
Proof.
  unfold strip_trailing_fence.
  destruct (ends_with (js "```") s); [apply prefix_take|done].
Qed.

(** X2. stripCodeFences only removes from the two ends: its result is a
    run of consecutive code units of the text, and a text that neither
    starts nor ends with a fence is returned as it is. *)
Theorem stripCodeFences_keeps_a_part (s : jstring) :
  part_of (stripCodeFences s) s
  /\ (starts_with false (js "```") s = false ->
      ends_with (js "```") s = false ->
      stripCodeFences s = s).
Proof.
  split.
  - unfold stripCodeFences. destruct s as [|c s]; [by exists [], []|].
    destruct (strip_leading_fence_suffix (c :: s)) as [before Hs].
    destruct (strip_trailing_fence_prefix (strip_leading_fence (c :: s)))
      as [after Hp].
    exists before, after. rewrite Hs at 1. by rewrite Hp at 1.
  - intros Hstart Hend. unfold stripCodeFences. destruct s as [|c s]; [done|].
    unfold strip_leading_fence. rewrite Hstart.
    unfold strip_trailing_fence. by rewrite Hend.
Qed.

Lemma space_is_no_letter (c : N) :
  is_space c = true -> lower c = c /\ ((c <= 32)%N \/ (160 <= c)%N).
Proof.
  unfold is_space, lower.
  rewrite !orb_true_iff, !andb_true_iff, !N.eqb_eq, !N.leb_le. intros H.
  assert (Hc : (c <= 32)%N \/ (160 <= c)%N) by lia. split; [|done].
  destruct ((65 <=? c)%N && (c <=? 90)%N) eqn:Hup; [|done].
  apply andb_prop in Hup as [?%N.leb_le ?%N.leb_le]. lia.
Qed.

Lemma strip_leading_fence_fenced (rest : jstring) :
  strip_leading_fence (js "```" ++ rest)
  = trimStart (if starts_with true (js "html") rest
                  || starts_with true (js "json") rest
               then drop 4 rest else rest).
Proof.
  unfold strip_leading_fence.
  rewrite (starts_with_app false (js "```") (js "```")) by done.
  by rewrite (drop_app_length' (js "```")).
Qed.

(** X3. Unwrapping a fenced block gives back its content.  For a fence
    tagged json or html in any case, or an untagged fence followed by
    whitespace, for any whitespace after the opening line and a content
    that does not begin with whitespace, stripCodeFences returns exactly
    the content; so when JSON.parse refuses the fenced text and accepts
    the content, parseJsonLenient returns the content's value from its
    second strategy. *)
Theorem fenced_block_unwraps (tag ws body : jstring) :
  List.map lower tag = js "json" \/ List.map lower tag = js "html"
  \/ (tag = [] /\ ws <> []) ->
  forallb is_space ws = true ->
  match body with c :: _ => is_space c = false | [] => True end ->
  stripCodeFences (js "```" ++ tag ++ ws ++ body ++ js "```") = body
  /\ forall JSON_parse v,
       JSON_parse (js "```" ++ tag ++ ws ++ body ++ js "```") = None ->
       JSON_parse body = Some v ->
       parseJsonLenient_steps JSON_parse (js "```" ++ tag ++ ws ++ body ++ js "```")
       = ([Direct; Unfenced], v).
Proof.
  intros Htag Hws Hbody.
  assert (Hcons : js "```" ++ tag ++ ws ++ body ++ js "```"
                  = 96%N :: (js "``" ++ tag ++ ws ++ body ++ js "```")) by done.
  assert (Hrest : trimStart (ws ++ body ++ js "```") = body ++ js "```").
  { rewrite trimStart_spaces by done. apply trimStart_fixed. by destruct body. }
  assert (Hlead : strip_leading_fence (js "```" ++ tag ++ ws ++ body ++ js "```")
                  = body ++ js "```").
  { rewrite strip_leading_fence_fenced.
    destruct Htag as [Hjson | [Hhtml | [-> Hne]]].
    - rewrite (starts_with_app true (js "json") tag) by done.
      rewrite orb_true_r.
      assert (length tag = 4%nat) as Hlen
        by (by rewrite <- (length_map lower), Hjson).
      by rewrite drop_app_length'.
    - rewrite (starts_with_app true (js "html") tag) by done.
      assert (length tag = 4%nat) as Hlen
        by (by rewrite <- (length_map lower), Hhtml).
      cbn [orb]. by rewrite drop_app_length'.
    - destruct ws as [|c ws]; [done|]. cbn [app] in *.
      apply andb_prop in Hws as [Hc _].
      destruct (space_is_no_letter c Hc) as [Hlow Hrange].
      assert (Hno : starts_with true (js "html") (c :: ws ++ body ++ js "```") = false
                    /\ starts_with true (js "json") (c :: ws ++ body ++ js "```") = false).
      { change (js "html") with (104%N :: js "tml").
        change (js "json") with (106%N :: js "son").
        cbn [starts_with]. rewrite Hlow. change (lower 104) with 104%N.
        change (lower 106) with 106%N.
        destruct (N.eqb_spec 104 c), (N.eqb_spec 106 c); try lia; done. }
      destruct Hno as [-> ->]. exact Hrest. }
  assert (Hstrip : stripCodeFences (js "```" ++ tag ++ ws ++ body ++ js "```") = body).
  { rewrite Hcons. unfold stripCodeFences. rewrite <- Hcons, Hlead.
    unfold strip_trailing_fence, ends_with.
    rewrite rev_app_distr, (starts_with_app false (rev (js "```")) (rev (js "```"))) by done.
    rewrite length_app, Nat.add_sub. by rewrite take_app_length. }
  split; [exact Hstrip|]. intros JSON_parse v Hfenced Hv.
  unfold parseJsonLenient_steps. rewrite Hfenced, Hstrip, Hv.
  by rewrite Hcons.
Qed.

End FenceFacts.

Section FenceWitness.

Import Normalizer.

Lemma fenced_block_unwraps_witness :
  stripCodeFences (js "```" ++ js "JSON" ++ [10%N] ++ (jsq "{'a':1}" ++ [10%N]) ++ js "```")
  = jsq "{'a':1}" ++ [10%N]
  /\ forall JSON_parse v,
       JSON_parse (js "```" ++ js "JSON" ++ [10%N] ++ (jsq "{'a':1}" ++ [10%N]) ++ js "```")
       = None ->
       JSON_parse (jsq "{'a':1}" ++ [10%N]) = Some v ->
       parseJsonLenient_steps JSON_parse
         (js "```" ++ js "JSON" ++ [10%N] ++ (jsq "{'a':1}" ++ [10%N]) ++ js "```")
       = ([Direct; Unfenced], v).
Proof.
  apply (fenced_block_unwraps (js "JSON") [10%N] (jsq "{'a':1}" ++ [10%N])).
  - left. reflexivity.
  - reflexivity.
  - reflexivity.
Defined.

End FenceWitness.

Section CandidateFacts.

Import Normalizer.

Lemma indexOf_split (c : N) (s : jstring) (i : nat) :
  indexOf c s = Some i ->
  exists before after, s = before ++ c :: after /\ length before = i /\ c ∉ before.
Proof.
  revert i. induction s as [|d s IH]; intros i; [done|]. simpl.
  destruct (N.eqb_spec d c) as [->|Hne].
  - intros [= <-]. exists [], s. split; [done|]. split; [done|]. apply not_elem_of_nil.
  - destruct (indexOf c s) as [i'|]; [|done]. intros [= <-].
    destruct (IH i' eq_refl) as (before & after & -> & <- & Hnot).
    exists (d :: before), after. split; [done|]. split; [done|].
    apply not_elem_of_cons. split; [congruence|done].
Qed.

Lemma lastIndexOf_split (c : N) (s : jstring) (j : nat) :
  lastIndexOf c s = Some j ->
  exists before after, s = before ++ c :: after /\ length before = j /\ c ∉ after.
Proof.
  revert j. induction s as [|d s IH]; intros j; [done|]. simpl.
  destruct (lastIndexOf c s) as [j'|] eqn:Hlast.
  - intros [= <-]. destruct (IH j' eq_refl) as (before & after & -> & <- & Hnot).
    by exists (d :: before), after.
  - destruct (N.eqb_spec d c) as [->|Hne]; [|done]. intros [= <-].
    exists [], s. split; [done|]. split; [done|].
    clear IH. induction s as [|e s IHs]; [apply not_elem_of_nil|].
    simpl in Hlast. destruct (lastIndexOf c s); [done|].
    destruct (N.eqb_spec e c); [done|].
    apply not_elem_of_cons. split; [congruence|by apply IHs].
Qed.

Lemma clean_chars (text : jstring) :
  Forall (fun c => is_control c = false /\ straighten c = c) (clean text).
Proof.
  unfold clean. apply Forall_forall. intros c Hc.
  apply list_elem_of_In, filter_In in Hc as [Hin Hctl].
  apply negb_true_iff in Hctl. split; [done|].
  apply in_map_iff in Hin as (d & <- & _). unfold straighten.
  destruct (N.eqb_spec d 8220) as [->|H1]; [done|].
  destruct (N.eqb_spec d 8221) as [->|H2]; [done|].
  destruct (N.eqb_spec d 8216) as [->|H3]; [done|].
  destruct (N.eqb_spec d 8217) as [->|H4]; [done|].
  cbn [orb]. apply N.eqb_neq in H1, H2, H3, H4. by rewrite H1, H2, H3, H4.
Qed.

(** X4. The candidate of the third strategy is the widest brace block of
    the cleaned text: it opens with the first opening brace of the
    cleaned text and closes with its last closing brace, and it holds no
    control character and no typographic quote. *)
Theorem brace_block_is_the_widest_block (text candidate : jstring) :
  brace_block text = Some candidate ->
  exists before inner after,
    clean text = before ++ candidate ++ after
    /\ candidate = 123%N :: inner ++ [125%N]
    /\ ((123%N) ∉ before)
    /\ ((125%N) ∉ after)
    /\ Forall (fun c => is_control c = false /\ straighten c = c) candidate.
Proof.
  unfold brace_block. intros H.
  destruct (indexOf 123 (clean text)) as [first|] eqn:Hfirst; [|done].
  destruct (lastIndexOf 125 (clean text)) as [last|] eqn:Hlast; [|done].
  destruct (first <? last)%nat eqn:Hlt; [|done]. injection H as <-.
  apply Nat.ltb_lt in Hlt.
  destruct (indexOf_split _ _ _ Hfirst) as (before & r1 & Ht1 & Hlen1 & Hnot1).
  destruct (lastIndexOf_split _ _ _ Hlast) as (r2 & after & Ht2 & Hlen2 & Hnot2).
  assert (Hinner : exists inner, r1 = inner ++ 125%N :: after
                                 /\ r2 = before ++ 123%N :: inner).
  { pose proof Ht1 as Heq. rewrite Ht2 in Heq.
    apply app_eq_inv in Heq as [(k & Hr2 & Hk) | (k & Hbefore & Hk)].
    - destruct k as [|d k].
      + rewrite Hr2, app_nil_r in Hlen2. lia.
      + injection Hk as <- ->. by exists k.
    - rewrite Hbefore, length_app in Hlen1. lia. }
  destruct Hinner as (inner & -> & ->).
  pose proof (clean_chars text) as Hclean.
  exists before, inner, after. unfold slice.
  assert (Hcand : 123%N :: inner ++ 125%N :: after
                  = (123%N :: inner ++ [125%N]) ++ after)
    by (cbn [app]; by rewrite <- app_assoc).
  assert (Hslice :
    take (S last - first) (drop first (clean text)) = 123%N :: inner ++ [125%N]).
  { rewrite Ht1, <- Hlen1, drop_app_length, Hcand.
    replace (S last - length before)%nat with (length (123%N :: inner ++ [125%N])).
    - apply take_app_length.
    - rewrite length_app in Hlen2. cbn [length] in *.
      rewrite length_app. cbn [length]. lia. }
  rewrite Hslice. split; [by rewrite Ht1, Hcand|].
  split; [done|]. split; [done|]. split; [done|].
  rewrite Ht1, Hcand in Hclean.
  apply Forall_app in Hclean as [_ Hclean].
  by apply Forall_app in Hclean as [Hclean _].
Qed.

Lemma index_of_found (ci : bool) (p s : jstring) (i : nat) :
  index_of ci p s = Some i ->
  starts_with ci p (drop i s) = true /\ (i <= length s)%nat.
Proof.
  revert i. induction s as [|d s IH]; intros i; simpl.
  - destruct (starts_with ci p []) eqn:Hp; [|done]. intros [= <-].
    split; [exact Hp|done].
  - destruct (starts_with ci p (d :: s)) eqn:Hp.
    + intros [= <-]. by split; [|lia].
    + destruct (index_of ci p s) as [i'|]; [|done]. intros [= <-].
      destruct (IH i' eq_refl). split; [done|]. simpl. lia.
Qed.

Lemma starts_with_folded (p s : jstring) :
  starts_with true p s = true ->
  exists opening rest, s = opening ++ rest /\ List.map lower opening = List.map lower p.
Proof.
  revert s. induction p as [|a p IH]; intros s; [by exists [], s|].
  destruct s as [|c s]; [done|]. simpl.
  intros [Hc Hs]%andb_prop. apply N.eqb_eq in Hc.
  destruct (IH s Hs) as (opening & rest & -> & Hopening).
  exists (c :: opening), rest. split; [done|]. simpl. by rewrite Hc, Hopening.
Qed.

(** X5. The capture of the fourth strategy stands between the first json
    fence of the text, in any case, and the nearest fence after it: the
    text is what precedes, the opening fence, the capture, a closing
    fence and what follows, and no fence starts inside the capture. *)
Theorem json_fence_is_the_first_block (text capture : jstring) :
  json_fence text = Some capture ->
  exists before opening after,
    text = before ++ opening ++ capture ++ js "```" ++ after
    /\ List.map lower opening = js "```json"
    /\ index_of true (js "```json") text = Some (length before)
    /\ index_of false (js "```") (capture ++ js "```" ++ after)
       = Some (length capture).
Proof.
  unfold json_fence. intros H.
  destruct (index_of true (js "```json") text) as [i|] eqn:Hopen; [|done].
  destruct (index_of false (js "```") (drop (i + 7) text)) as [j|] eqn:Hclose; [|done].
  injection H as <-.
  destruct (index_of_found _ _ _ _ Hopen) as [Hat Hi].
  destruct (index_of_found _ _ _ _ Hclose) as [Hat' Hj].
  destruct (starts_with_folded _ _ Hat) as (opening & rest & Hdrop & Hopening).
  destruct (starts_with_prefix _ _ Hat') as [after Hafter].
  assert (Hlen : length opening = 7%nat)
    by (by rewrite <- (length_map lower), Hopening).
  assert (Hrest : drop (i + 7) text = rest).
  { rewrite <- drop_drop, Hdrop, <- Hlen. apply drop_app_length. }
  rewrite Hrest in *.
  assert (Hsplit : rest = take j rest ++ js "```" ++ after)
    by (by rewrite <- Hafter, take_drop).
  exists (take i text), opening, after.
  split; [|split; [done|split]].
  - rewrite <- Hsplit, <- Hdrop. by rewrite take_drop.
  - by rewrite length_take, Nat.min_l.
  - rewrite <- Hsplit, length_take, Nat.min_l; done.
Qed.

End CandidateFacts.

Section CandidateWitness.

Import Normalizer.

Lemma brace_block_is_the_widest_block_witness :
  exists before inner after,
    clean (js "so } {" ++ [8220%N; 7%N] ++ js "a" ++ [8221%N] ++ js ":{}} ok")
    = before ++ jsq "{'a':{}}" ++ after
    /\ jsq "{'a':{}}" = 123%N :: inner ++ [125%N]
    /\ ((123%N) ∉ before)
    /\ ((125%N) ∉ after)
    /\ Forall (fun c => is_control c = false /\ straighten c = c) (jsq "{'a':{}}").
Proof.
  apply (brace_block_is_the_widest_block
           (js "so } {" ++ [8220%N; 7%N] ++ js "a" ++ [8221%N] ++ js ":{}} ok")).
  vm_compute. reflexivity.
Defined.

Lemma json_fence_is_the_first_block_witness :
  exists before opening after,
    js "x ```Json a ``` b ``` c" = before ++ opening ++ js " a " ++ js "```" ++ after
    /\ List.map lower opening = js "```json"
    /\ index_of true (js "```json") (js "x ```Json a ``` b ``` c")
       = Some (length before)
    /\ index_of false (js "```") (js " a " ++ js "```" ++ after)
       = Some (length (js " a ")).
Proof.
  apply (json_fence_is_the_first_block (js "x ```Json a ``` b ``` c")).
  vm_compute. reflexivity.
Defined.

End CandidateWitness.

(* ================================================================== *)
(** ** Further properties: the fallback page and stored uploads         *)
(* ================================================================== *)

Section HtmlFacts.

Import Html.

Lemma trim_fixed (s : jstring) : no_outer_space s -> trim s = s.
Proof.
  intros [Hstart Hend]. unfold trim. by rewrite Hstart, Hend, rev_involutive.
Qed.

Lemma safe_has_no_angle_bracket (s : jstring) :
  Forall (fun c => c <> 60%N /\ c <> 62%N)
    (replace_char 62 (js "&gt;") (replace_char 60 (js "&lt;") s)).
Proof.
  unfold replace_char. induction s as [|d s IH]; [done|]. cbn [flat_map].
  rewrite flat_map_app. apply Forall_app. split; [|exact IH].
  destruct (N.eqb_spec d 60) as [->|Hlt].
  - vm_compute. repeat constructor; done.
  - cbn [flat_map]. destruct (N.eqb_spec d 62) as [->|Hgt].
    + vm_compute. repeat constructor; done.
    + rewrite app_nil_r. by repeat constructor.
Qed.

Lemma safe_without_angle_brackets (s : jstring) :
  Forall (fun c => c <> 60%N /\ c <> 62%N) s ->
  replace_char 62 (js "&gt;") (replace_char 60 (js "&lt;") s) = s.
Proof.
  unfold replace_char. induction 1 as [|d s [Hlt Hgt] _ IH]; [done|].
  cbn [flat_map]. apply N.eqb_neq in Hlt, Hgt. rewrite Hlt. cbn [app flat_map].
  rewrite Hgt. cbn [app]. by rewrite IH.
Qed.

(** X6. The fallback page always passes the HTML test, whatever the
    content, and the content cannot bring markup into it: the escaped
    content holds no angle bracket, and a content without angle brackets
    is embedded as it is. *)
Theorem fallback_page_is_html (content : option jstring) :
  looksLikeHtml (wrapIfNotHtml content) = true
  /\ wrapIfNotHtml content = page_head ++ safe content ++ page_tail
  /\ Forall (fun c => c <> 60%N /\ c <> 62%N) (safe content)
  /\ (Forall (fun c => c <> 60%N /\ c <> 62%N) (default [] content) ->
      safe content = default [] content).
Proof.
  split; [|split; [done|split]].
  - unfold wrapIfNotHtml.
    assert (Hhead : page_head = js "<!DOCTYPE html>" ++ drop 15 page_head)
      by (vm_compute; reflexivity).
    assert (Htail : rev page_tail = 62%N :: rev (take 19 page_tail))
      by (vm_compute; reflexivity).
    assert (Hfixed : no_outer_space (page_head ++ safe content ++ page_tail)).
    { split.
      - rewrite Hhead. done.
      - rewrite !rev_app_distr, Htail. done. }
    unfold looksLikeHtml. rewrite (trim_fixed _ Hfixed).
    remember (drop 15 page_head) as rest eqn:Hrest. rewrite Hhead, <- app_assoc.
    destruct (js "<!DOCTYPE html>" ++ rest ++ safe content ++ page_tail)
      as [|c page] eqn:Hpage; [done|].
    rewrite <- Hpage.
    by rewrite (starts_with_app true (js "<!DOCTYPE html>") (js "<!DOCTYPE html>")).
  - apply safe_has_no_angle_bracket.
  - apply safe_without_angle_brackets.
Qed.

Example looksLikeHtml_examples :
  looksLikeHtml [] = false
  /\ looksLikeHtml (js "  <!doctype HTML><p>x</p>") = true
  /\ looksLikeHtml (js "see <HTML lang=en> here") = true
  /\ looksLikeHtml (js "<htmlx>") = false
  /\ looksLikeHtml (js "{ not html }") = false.
Proof. repeat split. Qed.

End HtmlFacts.

Section UploadFacts.

Import Uploads Quizzes.

Lemma digit_safe (d : N) : (d < 36)%N -> safe_char (digit d) = true.
Proof.
  intros Hd. unfold safe_char, is_digit, digit.
  destruct (N.ltb_spec d 10);
    rewrite !orb_true_iff, !andb_true_iff, !N.leb_le, !N.eqb_eq; lia.
Qed.

Lemma digits_safe (fuel : nat) (n : N) (acc : jstring) :
  Forall (fun c => safe_char c = true) acc ->
  Forall (fun c => safe_char c = true) (digits fuel 36 n acc).
Proof.
  revert n acc. induction fuel as [|fuel IH]; intros n acc Hacc; [done|].
  cbn [digits].
  assert (Hd : safe_char (digit (n mod 36)) = true).
  { apply digit_safe. by apply N.mod_lt. }
  destruct (n <? 36)%N; [by constructor|]. apply IH. by constructor.
Qed.

Lemma digits_nonempty (fuel : nat) (radix n : N) (acc : jstring) :
  digits (S fuel) radix n acc <> [].
Proof.
  revert n acc. induction fuel as [|fuel IH]; intros n acc.
  - cbn [digits]. by destruct (n <? radix)%N.
  - change (digits (S (S fuel)) radix n acc)
      with (let acc' := digit (n mod radix) :: acc in
            if (n <? radix)%N then acc' else digits (S fuel) radix (n / radix) acc').
    cbn zeta. destruct (n <? radix)%N; [done|apply IH].
Qed.

Lemma sanitize_safe (originalname : jstring) :
  Forall (fun c => safe_char c = true) (sanitize originalname).
Proof.
  unfold sanitize. apply Forall_forall. intros c Hc.
  apply list_elem_of_In, in_map_iff in Hc as (d & <- & _).
  by destruct (safe_char d) eqn:Hd.
Qed.

Lemma basename_of_upload (name : jstring) :
  name <> [] -> (47%N) ∉ name ->
  basename name = name /\ basename (relative_path name) = name.
Proof.
  intros Hne Hslash.
  assert (Hrev : (47%N) ∉ rev name)
    by (by rewrite list_elem_of_In, <- in_rev, <- list_elem_of_In).
  assert (Hrevne : rev name <> []).
  { intros H. apply Hne. by rewrite <- (rev_involutive name), H. }
  assert (Htrail : forall s, drop_trailing_slashes (rev name ++ s) = rev name ++ s).
  { intros s. destruct (rev name) as [|c r]; [done|]. cbn [app drop_trailing_slashes].
    apply not_elem_of_cons in Hrev as [Hc _].
    destruct c as [|p]; [done|]. repeat (destruct p as [p|p|]; try done). }
  assert (Huntil : forall s, until_slash (rev name ++ 47%N :: s) = rev name
                             /\ until_slash (rev name) = rev name).
  { intros s. clear Htrail Hrevne. induction (rev name) as [|c r IH]; [done|].
    apply not_elem_of_cons in Hrev as [Hc Hr]. cbn [app until_slash].
    destruct (N.eqb_spec c 47); [congruence|].
    destruct (IH Hr) as [-> ->]. done. }
  unfold basename, relative_path. split.
  - rewrite <- (app_nil_r (rev name)), Htrail, app_nil_r.
    rewrite (proj2 (Huntil [])). apply rev_involutive.
  - rewrite rev_app_distr, Htrail.
    change (rev (js "uploads/")) with (47%N :: rev (js "uploads")).
    rewrite (proj1 (Huntil _)). apply rev_involutive.
Qed.

(** X7. The name under which an upload is stored is made of letters,
    digits, dots, dashes and underscores only, whatever the client called
    the file: it is never empty, holds no slash and no backslash, and is
    its own base name.  Cleaning the client's name keeps its length and
    changes nothing of a name that is already clean. *)
Theorem stored_filename_is_safe (now : Z) (originalname : jstring) :
  Forall (fun c => safe_char c = true) (filename now originalname)
  /\ filename now originalname <> []
  /\ ((47%N) ∉ filename now originalname)
  /\ ((92%N) ∉ filename now originalname)
  /\ basename (filename now originalname) = filename now originalname
  /\ length (sanitize originalname) = length originalname
  /\ sanitize (sanitize originalname) = sanitize originalname.
Proof.
  assert (Hsafe : Forall (fun c => safe_char c = true) (filename now originalname)).
  { unfold filename, N_toString. apply Forall_app. split.
    - by apply digits_safe.
    - constructor; [done|apply sanitize_safe]. }
  assert (Hne : filename now originalname <> []).
  { unfold filename. by destruct (N_toString 36 (Z.to_N now)). }
  assert (Hno : forall c, safe_char c = false -> c ∉ filename now originalname).
  { intros c Hc Hin. rewrite Forall_forall in Hsafe. specialize (Hsafe c Hin).
    congruence. }
  split; [done|]. split; [done|]. split; [by apply Hno|]. split; [by apply Hno|].
  split; [apply basename_of_upload; [done|by apply Hno]|].
  split; [apply length_map|].
  unfold sanitize. rewrite map_map. apply map_ext_in. intros c _.
  destruct (safe_char c) eqn:Hc; [by rewrite Hc|done].
Qed.

(** X8. The file URL of a quiz names the stored upload.  For a quiz
    whose filePath is the relative path of an upload stored by the disk
    storage, whenever GET /api/quizzes/:id returns the quiz its fileUrl
    is the host, the uploads route and exactly the stored file name; the
    host is the Origin header when the request has one. *)
Theorem file_url_names_the_stored_upload (req : request)
    (db : gmap jstring quiz) (q : quiz) (now : Z) (originalname : jstring)
    (fileUrl : option jstring) :
  db !! params_id req = Some q ->
  filePath q = Some (relative_path (filename now originalname)) ->
  get_quiz req db = Found q fileUrl ->
  exists host,
    fileUrl = Some (host ++ js "/server/uploads/" ++ filename now originalname)
    /\ (present (origin req) = true -> Some host = origin req)
    /\ (present (origin req) = false ->
        host = protocol req ++ js "://" ++ default (js "undefined") (Quizzes.host req)).
Proof.
  intros Hq Hpath. unfold get_quiz. rewrite Hq, Hpath.
  destruct (_ && _); [done|]. intros [= <-].
  destruct (stored_filename_is_safe now originalname) as (_ & Hne & Hslash & _).
  destruct (basename_of_upload _ Hne Hslash) as [_ Hbase].
  cbn [default]. rewrite Hbase.
  eexists. split; [reflexivity|]. split.
  - intros Hpresent. rewrite Hpresent. by destruct (origin req).
  - by intros ->.
Qed.

End UploadFacts.

Section UploadWitness.

Import Uploads Quizzes.

Lemma file_url_names_the_stored_upload_witness :
  exists host,
    Some (js "http://localhost:3004/server/uploads/"
          ++ filename 1730000000000 (js "my notes (1).png"))
    = Some (host ++ js "/server/uploads/"
            ++ filename 1730000000000 (js "my notes (1).png"))
    /\ (present None = true -> Some host = None)
    /\ (present None = false ->
        host = js "http" ++ js "://" ++ default (js "undefined") (Some (js "localhost:3004"))).
Proof.
  apply (file_url_names_the_stored_upload
           (Samples.quiz_request None)
           {[ js "quiz1" :=
                {| id := js "quiz1"; finalizedJson := None;
                   filePath := Some (relative_path
                                       (filename 1730000000000 (js "my notes (1).png")));
                   metadata := None; courseId := None; teacherId := None;
                   allowedStudents := [] |} ]}
           {| id := js "quiz1"; finalizedJson := None;
              filePath := Some (relative_path
                                  (filename 1730000000000 (js "my notes (1).png")));
              metadata := None; courseId := None; teacherId := None;
              allowedStudents := [] |}
           1730000000000 (js "my notes (1).png")).
  - by_evaluation.
  - reflexivity.
  - by_evaluation.
Defined.

Example stored_filename_example :
  filename 1730000000000 (js "my notes (1).png") = js "m2r1bz7k-my_notes__1_.png"
  /\ filename 0 (js "../../etc/passwd") = js "0-.._.._etc_passwd".
Proof. split; by_evaluation. Qed.

End UploadWitness.

(* ================================================================== *)
(** ** Further properties: what the generation endpoints post and send  *)
(* ================================================================== *)

Section EndpointFacts.

Import Normalizer Generation TeacherChat.

Context {W : Type}.
Variable JSON_parse : jstring -> option jsval.
Variable chat_completions : payload -> W -> result jstring * W.


Lemma hint_question_appends (q : jsval) (w : world W) :
  requests w `prefix_of` requests (snd (hint_question chat_completions q w)).
Proof.
  assert (Hcases : q = JNull \/ q <> JNull) by (destruct q; (by left) || (by right)).
  destruct Hcases as [->|Hq]; [done|].
  rewrite hint_question_run by done.
  destruct (question_text q) as [questionText|]; [|done].
  destruct (chat_completions _ (outside w)) as [outcome o]. by eexists.
Qed.

Lemma hint_loop_appends (questions : list jsval) (w : world W) :
  requests w `prefix_of` requests (snd (hint_loop chat_completions questions w)).
Proof.
  revert w. induction questions as [|q later IH]; intros w; [done|].
  cbn [hint_loop]. unfold bind at 1.
  pose proof (hint_question_appends q w) as Hq.
  destruct (hint_question chat_completions q w) as [[q'|e] w1]; [|done].
  cbn [snd] in Hq. unfold bind.
  pose proof (IH w1) as Hlater.
  destruct (hint_loop chat_completions later w1) as [[later'|e] w2];
    cbn [snd ret] in *; by etrans.
Qed.

Lemma quiz_reply_outcomes (text : jstring) (w : world W) :
  match quiz_reply JSON_parse chat_completions text w with
  | (Ok r, w') =>
      requests w `prefix_of` requests w'
      /\ (r = invalid_model_output text
          \/ exists quiz, r = Reply 200 (obj [(js "ok", JBool true); (js "quiz", quiz)])
                          /\ not_typeof_object quiz = false)
  | (Throw e, w') => requests w `prefix_of` requests w'
  end.
Proof.
  unfold quiz_reply.
  destruct (negb (truthy (parseJsonLenient JSON_parse text))
            || negb (is_object (Some (parseJsonLenient JSON_parse text)))) eqn:Hbad.
  - split; [done|by left].
  - assert (Hobject : not_typeof_object (parseJsonLenient JSON_parse text) = false).
    { revert Hbad.
      destruct (parseJsonLenient JSON_parse text); simpl;
        rewrite ?orb_true_r; done. }
    destruct (get (parseJsonLenient JSON_parse text) (js "questions"))
      as [[| | | |questions|]|]; unfold bind, ret;
      try (split; [done|right; by eexists]).
    pose proof (hint_loop_appends questions w) as Hreq.
    destruct (hint_loop chat_completions questions w) as [[questions'|e] w'];
      cbn [snd] in Hreq; [|done].
    split; [done|]. right. eexists. split; [done|].
    by destruct (parseJsonLenient JSON_parse text).
Qed.

Lemma model_answer_appends (extract : jstring -> M (world W) jstring)
    (filePath : jstring) (prompt : option jstring) (w : world W) :
  (forall p v, requests (snd (extract p v)) = requests v) ->
  requests w
  `prefix_of` requests (snd (model_answer chat_completions extract filePath prompt w)).
Proof.
  intros Hextract. unfold model_answer, bind, callOpenAI.
  specialize (Hextract filePath w).
  destruct (extract filePath w) as [[text|e] w0]; cbn [snd] in *.
  - destruct (chat_completions _ (outside w0)) as [outcome o].
    cbn [snd requests]. rewrite Hextract. by eexists.
  - by rewrite Hextract.
Qed.

Lemma parse_endpoint_cases (extract : jstring -> M (world W) jstring)
    (req : upload_request) (w w' : world W) (r : reply) :
  (forall p v, requests (snd (extract p v)) = requests v) ->
  parse_endpoint JSON_parse chat_completions extract req w = (r, w') ->
  status_of r ∈ [200; 400; 422; 500]%N
  /\ (status_of r = 200%N ->
      exists quiz, body_of r = obj [(js "ok", JBool true); (js "quiz", quiz)]
                   /\ not_typeof_object quiz = false)
  /\ (status_of r <> 200%N -> get (body_of r) (js "quiz") = None)
  /\ (file req = None -> status_of r = 400%N /\ w' = w)
  /\ requests w `prefix_of` requests w'.
Proof.
  intros Hextract. unfold parse_endpoint, handle.
  destruct (file req) as [filePath|].
  - unfold bind.
    pose proof (model_answer_appends extract filePath (prompt req) w Hextract) as Hreq.
    destruct (model_answer chat_completions extract filePath (prompt req) w)
      as [[answer|e] w1]; cbn [snd] in Hreq.
    + pose proof (quiz_reply_outcomes answer w1) as Hreply.
      destruct (quiz_reply JSON_parse chat_completions answer w1) as [[r1|e] w2].
      * destruct Hreply as [Hreq' [-> | (quiz & -> & Hquiz)]]; intros [= <- <-];
          cbn [status_of body_of].
        -- split; [set_solver|]. split; [done|]. split; [done|].
           split; [done|]. by etrans.
        -- split; [set_solver|]. split; [by eexists|]. split; [done|].
           split; [done|]. by etrans.
      * intros [= <- <-]. cbn [status_of body_of].
        split; [set_solver|]. split; [done|]. split; [done|].
        split; [done|]. by etrans.
    + intros [= <- <-]. cbn [status_of body_of].
      split; [set_solver|]. split; [done|]. split; [done|]. done.
  - intros [= <- <-]. cbn [status_of body_of].
    split; [set_solver|]. split; [done|]. split; [done|]. done.
Qed.

(** X10. The replies of the two parse endpoints.  Every reply has status
    200, 400, 422 or 500.  A 200 reply is the envelope ok:true with a
    quiz that is an object or an array, never null or a primitive; every
    other reply carries no quiz.  Without an upload the reply is 400 and
    nothing outside the process is touched; in every case the requests
    already posted stay posted. *)
Theorem parse_endpoint_replies (engine : jstring -> W -> result jstring * W)
    (req : upload_request) (w w' : world W) (r : reply) :
  post_parse_image JSON_parse chat_completions engine req w = (r, w')
  \/ post_parse_pdf JSON_parse chat_completions engine req w = (r, w') ->
  status_of r ∈ [200; 400; 422; 500]%N
  /\ (status_of r = 200%N ->
      exists quiz, body_of r = obj [(js "ok", JBool true); (js "quiz", quiz)]
                   /\ not_typeof_object quiz = false)
  /\ (status_of r <> 200%N -> get (body_of r) (js "quiz") = None)
  /\ (file req = None -> status_of r = 400%N /\ w' = w)
  /\ requests w `prefix_of` requests w'.
Proof.
  intros [Himage | Hpdf].
  - apply (parse_endpoint_cases (extractImageText engine)); [|exact Himage].
    intros p v. unfold extractImageText, bind, outside_call.
    destruct (engine (forward_slashes p) (outside v)) as [[raw|e] o]; [|done].
    by destruct (blank raw).
  - apply (parse_endpoint_cases (extractPdfText engine)); [|exact Hpdf].
    intros p v. unfold extractPdfText, bind, outside_call.
    destruct (engine (forward_slashes p) (outside v)) as [[raw|e] o]; [|done].
    by destruct (trim raw).
Qed.


End EndpointFacts.

Section EndpointWitnesses.

Import Normalizer Generation TeacherChat Samples.


Lemma parse_endpoint_replies_witness :
  let outcome := Samples.post_parse_image upload (scripted failing_hint_script) in
  status_of (fst outcome) ∈ [200; 400; 422; 500]%N
  /\ (status_of (fst outcome) = 200%N ->
      exists quiz,
        body_of (fst outcome) = obj [(js "ok", JBool true); (js "quiz", quiz)]
        /\ not_typeof_object quiz = false)
  /\ (status_of (fst outcome) <> 200%N ->
      get (body_of (fst outcome)) (js "quiz") = None)
  /\ (file upload = None ->
      status_of (fst outcome) = 400%N /\ snd outcome = scripted failing_hint_script)
  /\ requests (scripted failing_hint_script) `prefix_of` requests (snd outcome).
Proof.
  apply (parse_endpoint_replies JsonRef.JSON_parse (@next_line payload)
           (@next_line jstring) upload (scripted failing_hint_script)).
  left. apply surjective_pairing.
Defined.


Example teacher_chat_examples :
  fst (post_chat (@next_line payload)
         (obj [(js "message", JStr (js "How do I grade essays?"))])
         (scripted [Ok (js "With a rubric.")]))
  = Reply 200 (obj [(js "ok", JBool true); (js "response", JStr (js "With a rubric."))])
  /\ post_chat (@next_line payload) (obj [(js "message", JNum 7)])
       (scripted [Ok (js "never asked")])
     = (Reply 400 (obj [(js "ok", JBool false);
                        (js "error", JStr (js "Message is required."))]),
        scripted [Ok (js "never asked")]).
Proof. split; by_evaluation. Qed.

End EndpointWitnesses.

(* ================================================================== *)
(** ** Sequences of autosaves and the read endpoint                    *)
(* ================================================================== *)

Section AutosaveFacts.

Import Attempts AttemptStore.

Variable cast : jstring -> jsval -> option jsval.

Lemma lookup_merge_answers (existing : option attempt) (body : jsval)
    (i : jstring) (now : Z) (k : jstring) :
  k <> js "__proto__" ->
  answers (merge existing body i now) !! k =
    match incomingAnswers (incoming_of body) !! k with
    | Some v => if empty_value v then existing ≫= (fun a => answers a !! k)
                else Some v
    | None => existing ≫= (fun a => answers a !! k)
    end.
Proof.
  intros Hk. simpl. rewrite lookup_mergedAnswers.
  by destruct (decide (k = js "__proto__")).
Qed.

(** X12. Reading back an autosave.  When POST /api/attempts answers with
    a stored attempt, GET /api/attempts with a quiz id and an email that
    print as those of the payload answers with that same attempt.  When
    it answers with an error, because the id cannot be built or because
    the store refuses a value, the store is as it was before the call.
    In either case every attempt stored under another id is left as it
    was. *)
Theorem autosave_then_read (body : jsval) (now : Z) (db : gmap jstring attempt)
    (query_quizId query_email : option jsval) :
  ToString_opt query_quizId = ToString_opt (get body (js "quizId")) ->
  ToString_opt query_email = ToString_opt (get body (js "email")) ->
  match fst (post_attempts cast body now db) with
  | Saved doc =>
      get_attempts query_quizId query_email
        (snd (post_attempts cast body now db)) = Saved doc
  | _ => snd (post_attempts cast body now db) = db
  end
  /\ forall j, attempt_id body <> Ok j ->
       snd (post_attempts cast body now db) !! j = db !! j.
Proof.
  intros Hq He. unfold get_attempts. rewrite Hq, He. fold (attempt_id body).
  destruct (attempt_id body) as [i|e] eqn:Hid.
  - destruct (post_attempts_cases cast body now db i Hid)
      as [[_ ->]|(_ & upsert & -> & _)]; cbn [fst snd]; [done|].
    simpl. rewrite lookup_insert_eq. split; [done|]. intros j Hj.
    rewrite lookup_insert_ne; [done|]. by intros ->.
  - unfold post_attempts. by rewrite Hid.
Qed.

(** GET /api/attempts answers 404 exactly for an id under which nothing
    is stored. *)
Lemma get_attempts_not_found (query_quizId query_email : option jsval)
    (db : gmap jstring attempt) (q e : jstring) :
  ToString_opt query_quizId = Ok q ->
  ToString_opt query_email = Ok e ->
  get_attempts query_quizId query_email db = Failed 404 (js "not found")
  <-> db !! (q ++ js "::" ++ e) = None.
Proof.
  intros Hq He. unfold get_attempts. rewrite Hq, He. simpl.
  destruct (db !! _); split; done.
Qed.

(** One call, seen from an answer key. *)
Lemma post_attempts_answer (body : jsval) (now : Z) (db : gmap jstring attempt)
    (i : jstring) :
  attempt_id body = Ok i ->
  (castable cast body = false
   /\ snd (post_attempts cast body now db) = db)
  \/ (castable cast body = true
      /\ exists a,
           snd (post_attempts cast body now db) !! i = Some a
           /\ answers a !! js "__proto__" = None
           /\ forall k, k <> js "__proto__" ->
                answers a !! k
                = match kept_answer cast body k with
                  | Some v => Some v
                  | None => db !! i ≫= (fun a0 => answers a0 !! k)
                  end).
Proof.
  intros Hid.
  destruct (post_attempts_cases cast body now db i Hid)
    as [[Hcast ->]|(Hcast & upsert & -> & _ & Hanswers & _)]; cbn [snd].
  - by left.
  - right. split; [done|]. exists upsert. rewrite lookup_insert_eq.
    split; [done|]. rewrite Hanswers. split.
    + simpl. rewrite lookup_mergedAnswers. by destruct (decide _).
    + intros k Hk. rewrite lookup_merge_answers by done.
      unfold kept_answer. rewrite Hcast.
      destruct (incomingAnswers (incoming_of body) !! k) as [v|]; [|done].
      by destruct (empty_value v).
Qed.

Lemma latest_answer_refused (body : jsval) (now : Z) (later : list (jsval * Z))
    (k : jstring) (before : option jsval) :
  castable cast body = false ->
  latest_answer cast ((body, now) :: later) k before
  = latest_answer cast later k before.
Proof.
  intros Hcast. unfold latest_answer. cbn [fold_left fst].
  unfold kept_answer at 2. by rewrite Hcast.
Qed.

Lemma post_all_latest (calls : list (jsval * Z)) (db : gmap jstring attempt)
    (i : jstring) (a0 : attempt) :
  Forall (fun call => attempt_id (fst call) = Ok i) calls ->
  db !! i = Some a0 ->
  answers a0 !! js "__proto__" = None ->
  exists a,
    post_all cast calls db !! i = Some a
    /\ answers a !! js "__proto__" = None
    /\ forall k, k <> js "__proto__" ->
         answers a !! k
         = latest_answer cast calls k (answers a0 !! k).
Proof.
  revert db a0. induction calls as [|[body now] later IH];
    intros db a0 Hall Ha0 Hproto.
  - exists a0. by repeat split.
  - apply Forall_cons in Hall as [Hid Hall]. simpl in Hid. cbn [post_all].
    destruct (post_attempts_answer body now db i Hid)
      as [[Hcast ->]|(Hcast & a1 & Ha1 & Hproto1 & Hanswers)].
    + destruct (IH db a0 Hall Ha0 Hproto) as (a & Hlook & Hp & Hans).
      exists a. split; [exact Hlook|]. split; [exact Hp|]. intros k Hk.
      rewrite latest_answer_refused by done. by apply Hans.
    + destruct (IH _ a1 Hall Ha1 Hproto1) as (a & Hlook & Hp & Hans).
      exists a. split; [exact Hlook|]. split; [exact Hp|]. intros k Hk.
      rewrite (Hans k Hk), (Hanswers k Hk), Ha0.
      unfold latest_answer. cbn [fold_left fst]. done.
Qed.

(** X13. Autosaves accumulate.  Take any sequence of POST /api/attempts
    calls for one attempt id.  If the store refuses every call, it is
    left as it was.  If it accepts one at least, the stored attempt
    holds for every answer key but __proto__ the value of the last
    accepted call that sent a value for it that is neither null nor a
    blank string, and what was stored before the sequence for a key no
    accepted call sent such a value for; it has no key __proto__. *)
Theorem autosaves_accumulate (calls : list (jsval * Z))
    (db : gmap jstring attempt) (i : jstring) :
  Forall (fun call => attempt_id (fst call) = Ok i) calls ->
  (Forall (fun call => castable cast (fst call) = false) calls ->
   post_all cast calls db = db)
  /\ (Exists (fun call => castable cast (fst call) = true) calls ->
      exists a,
        post_all cast calls db !! i = Some a
        /\ answers a !! js "__proto__" = None
        /\ forall k, k <> js "__proto__" ->
             answers a !! k
             = latest_answer cast calls k
                 (db !! i ≫= (fun a0 => answers a0 !! k))).
Proof.
  intros Hall. split.
  - intros Hrefused. revert db.
    induction calls as [|[body now] later IH]; intros db; [done|].
    apply Forall_cons in Hall as [Hid Hall].
    apply Forall_cons in Hrefused as [Hcast Hrefused]. simpl in Hid, Hcast.
    cbn [post_all].
    destruct (post_attempts_answer body now db i Hid) as [[_ ->]|[Hyes _]].
    + by apply IH.
    + congruence.
  - intros Haccepted. revert db.
    induction calls as [|[body now] later IH]; intros db.
    { by apply Exists_nil in Haccepted. }
    apply Forall_cons in Hall as [Hid Hall]. simpl in Hid. cbn [post_all].
    destruct (post_attempts_answer body now db i Hid)
      as [[Hcast ->]|(Hcast & a1 & Ha1 & Hproto1 & Hanswers)].
    + apply Exists_cons in Haccepted as [Hhead|Hlater];
        [simpl in Hhead; congruence|].
      destruct (IH Hall Hlater db) as (a & Hlook & Hp & Hans).
      exists a. split; [exact Hlook|]. split; [exact Hp|]. intros k Hk.
      rewrite latest_answer_refused by done. by apply Hans.
    + destruct (post_all_latest later _ i a1 Hall Ha1 Hproto1)
        as (a & Hlook & Hp & Hans).
      exists a. split; [exact Hlook|]. split; [exact Hp|]. intros k Hk.
      rewrite (Hans k Hk), (Hanswers k Hk).
      unfold latest_answer. cbn [fold_left fst]. done.
Qed.

Lemma post_attempts_well_kept (body : jsval) (now : Z)
    (db : gmap jstring attempt) :
  well_kept db -> well_kept (snd (post_attempts cast body now db)).
Proof.
  intros Hdb.
  destruct (attempt_id body) as [i|e] eqn:Hid;
    [|unfold post_attempts; by rewrite Hid].
  destruct (post_attempts_cases cast body now db i Hid)
    as [[_ ->]|(Hcast & upsert & -> & Hup & Hanswers & Hprogress)]; cbn [snd];
    [exact Hdb|].
  pose proof (findOneAndUpdate_castable cast (db !! i) body i now) as H.
  rewrite Hcast in H. destruct H as (u & Hu & Hi & _).
  rewrite Hup in Hu. injection Hu as <-.
  intros j a. destruct (decide (j = i)) as [->|Hne].
  - rewrite lookup_insert_eq. intros [= <-]. split; [exact Hi|].
    rewrite Hanswers, Hprogress. split.
    + intros k v. cbn [answers merge]. rewrite lookup_mergedAnswers.
      destruct (decide (k = js "__proto__")); [done|].
      destruct (incomingAnswers (incoming_of body) !! k) as [x|] eqn:Hx.
      * destruct (empty_value x) eqn:Hempty.
        -- destruct (db !! i) as [a0|] eqn:Ha0; [|done]. simpl.
           apply (Hdb i a0 Ha0).
        -- by intros [= <-].
      * destruct (db !! i) as [a0|] eqn:Ha0; [|done]. simpl.
        apply (Hdb i a0 Ha0).
    + intros k v. cbn [progress merge]. rewrite lookup_mergedProgress.
      destruct (decide (k = js "__proto__")); [done|].
      destruct (incomingProgress (incoming_of body) !! k) as [x|] eqn:Hx.
      * destruct x; try (by intros [= <-]);
          (destruct (db !! i) as [a0|] eqn:Ha0; [|done]); simpl;
          apply (Hdb i a0 Ha0).
      * destruct (db !! i) as [a0|] eqn:Ha0; [|done]. simpl.
        apply (Hdb i a0 Ha0).
  - rewrite lookup_insert_ne by done. apply Hdb.
Qed.

(** X14. What the attempt store never holds.  If every stored attempt
    sits under its own id with no answer that is null or a blank string
    and no progress entry that is null, the same is true after any
    sequence of POST /api/attempts calls: the merge never writes such a
    value, whatever the payloads are. *)
Theorem autosaves_store_no_empty_value (calls : list (jsval * Z))
    (db : gmap jstring attempt) :
  well_kept db -> well_kept (post_all cast calls db).
Proof.
  revert db. induction calls as [|[body now] later IH]; intros db Hdb; [exact Hdb|].
  cbn [post_all]. apply IH. by apply post_attempts_well_kept.
Qed.

(** X15. Where a stored answer comes from.  An answer of the merged
    attempt was already stored under that key, or it is a value of the
    payload that is neither null nor a blank string and stands at the top
    level under a question key or among the nested answers.  A top-level
    member whose name is not a question key never becomes an answer. *)
Theorem merged_answer_origin (existing : option attempt) (body : jsval)
    (i : jstring) (now : Z) (k : jstring) (v : jsval) :
  answers (merge existing body i now) !! k = Some v ->
  existing ≫= (fun a => answers a !! k) = Some v
  \/ empty_value v = false
     /\ (is_question_key k = true /\ get body k = Some v
         \/ nested_answers (incoming_of body) !! k = Some v).
Proof.
  cbn [answers merge]. rewrite lookup_mergedAnswers.
  destruct (decide (k = js "__proto__")) as [|Hproto]; [done|].
  rewrite lookup_incomingAnswers.
  destruct (decide (k = js "__proto__")); [done|].
  assert (Hget : forall x, get (incoming_of body) k = Some x -> get body k = Some x).
  { unfold incoming_of. destruct (truthy body); [done|].
    unfold get. simpl. by rewrite lookup_empty. }
  destruct (get (incoming_of body) k) as [x|] eqn:Hx.
  - destruct (is_question_key k) eqn:Hk.
    + destruct (empty_value x) eqn:Hempty; [by left|].
      intros [= <-]. right. split; [done|]. left. split; [done|]. by apply Hget.
    + destruct (nested_answers (incoming_of body) !! k) as [y|] eqn:Hy; [|by left].
      destruct (empty_value y) eqn:Hempty; [by left|].
      intros [= <-]. right. split; [done|]. by right.
  - destruct (nested_answers (incoming_of body) !! k) as [y|] eqn:Hy; [|by left].
    destruct (empty_value y) eqn:Hempty; [by left|].
    intros [= <-]. right. split; [done|]. by right.
Qed.

End AutosaveFacts.

Section AutosaveWitnesses.

Import Attempts AttemptStore.

Lemma autosave_then_read_witness :
  match fst (post_attempts Samples.cast Samples.stale_autosave 2000
               Samples.attempts_db) with
  | Saved doc =>
      get_attempts (Some (JStr (js "quiz1"))) (Some (JStr (js "a@x.com")))
        (snd (post_attempts Samples.cast Samples.stale_autosave 2000
                Samples.attempts_db)) = Saved doc
  | _ => snd (post_attempts Samples.cast Samples.stale_autosave 2000
                Samples.attempts_db) = Samples.attempts_db
  end
  /\ forall j, attempt_id Samples.stale_autosave <> Ok j ->
       snd (post_attempts Samples.cast Samples.stale_autosave 2000
              Samples.attempts_db) !! j
       = Samples.attempts_db !! j.
Proof.
  apply (autosave_then_read Samples.cast Samples.stale_autosave 2000
           Samples.attempts_db (Some (JStr (js "quiz1")))
           (Some (JStr (js "a@x.com"))));
    by_evaluation.
Defined.

(** Three calls for one attempt, the second of which the store refuses. *)
Lemma autosaves_accumulate_witness :
  exists a,
    post_all Samples.cast
      [(Samples.both_levels, 1500%Z); (Samples.bad_score, 1800%Z);
       (Samples.stale_autosave, 2000%Z)] ∅ !! js "quiz1::a@x.com" = Some a
    /\ answers a !! js "__proto__" = None
    /\ forall k, k <> js "__proto__" ->
         answers a !! k
         = latest_answer Samples.cast
             [(Samples.both_levels, 1500%Z); (Samples.bad_score, 1800%Z);
              (Samples.stale_autosave, 2000%Z)] k
             ((∅ : gmap jstring attempt) !! js "quiz1::a@x.com"
                ≫= (fun a0 => answers a0 !! k)).
Proof.
  apply (autosaves_accumulate Samples.cast
           [(Samples.both_levels, 1500%Z); (Samples.bad_score, 1800%Z);
            (Samples.stale_autosave, 2000%Z)] ∅ (js "quiz1::a@x.com")).
  - repeat constructor.
  - apply Exists_cons_hd. by_evaluation.
Defined.

Lemma stored_attempts_well_kept : well_kept Samples.attempts_db.
Proof.
  intros j a Hj. unfold Samples.attempts_db in Hj.
  apply lookup_singleton_Some in Hj as [<- <-].
  split; [reflexivity|]. split; intros k v Hk; simpl in Hk;
    apply lookup_singleton_Some in Hk as [<- <-]; done.
Qed.

Lemma autosaves_store_no_empty_value_witness :
  well_kept
    (post_all Samples.cast
       [(Samples.blank_progress, 1500%Z); (Samples.stale_autosave, 2000%Z)]
       Samples.attempts_db).
Proof.
  apply (autosaves_store_no_empty_value Samples.cast
           [(Samples.blank_progress, 1500%Z); (Samples.stale_autosave, 2000%Z)]
           Samples.attempts_db).
  exact stored_attempts_well_kept.
Defined.

Lemma merged_answer_origin_witness :
  Some Samples.stored_attempt ≫= (fun a => answers a !! js "q2")
  = Some (JStr (js "C"))
  \/ empty_value (JStr (js "C")) = false
     /\ (is_question_key (js "q2") = true
         /\ get Samples.stale_autosave (js "q2") = Some (JStr (js "C"))
         \/ nested_answers (incoming_of Samples.stale_autosave) !! js "q2"
            = Some (JStr (js "C"))).
Proof.
  apply (merged_answer_origin (Some Samples.stored_attempt) Samples.stale_autosave
           (js "quiz1::a@x.com") 2000 (js "q2") (JStr (js "C"))).
  by_evaluation.
Defined.

(** Three autosaves in a row: the store refuses the second, whose Z for
    q1 is lost; the blank q1 of the third keeps the B of the first, and
    the third adds q2. *)
Example three_autosaves :
  answers <$> (post_all Samples.cast
                 [(Samples.both_levels, 1500%Z); (Samples.bad_score, 1800%Z);
                  (Samples.stale_autosave, 2000%Z)] ∅
                 !! js "quiz1::a@x.com")
  = Some {[ js "q1" := JStr (js "B"); js "q2" := JStr (js "C") ]}.
Proof. by_evaluation. Qed.

(** Two pairs of quiz id and email that share one attempt id. *)
Example attempt_ids_collide :
  attempt_id (obj [(js "quizId", JStr (js "a::b")); (js "email", JStr (js "c"))])
  = attempt_id (obj [(js "quizId", JStr (js "a")); (js "email", JStr (js "b::c"))]).
Proof. by_evaluation. Qed.

End AutosaveWitnesses.

(* ================================================================== *)
(** ** The documents of the chat store                                 *)
(* ================================================================== *)

Section ChatFacts.

Import Chats.

Variable Date_of : jsval -> option Z.

Lemma double_toString_nonempty (x : N) : double_toString x <> [].
Proof.
  unfold double_toString.
  assert (Hv : forall n, N_toString 10 n <> []) by (intros; apply digits_nonempty).
  destruct (_ <=? 21)%nat; [apply Hv|].
  destruct (rev (strip_zeros _)) as [|d [|d' ds]]; [apply Hv|done|done].
Qed.

Lemma Number_toString_nonempty (n : Z) : Number_toString n <> [].
Proof.
  assert (Hprint : forall m, N_print m <> []).
  { intros [|p]; [done|]. unfold N_print.
    destruct (to_double _); [apply double_toString_nonempty|done]. }
  destruct n as [|p|p]; [done|exact (Hprint (N.pos p))|done].
Qed.

(** The String cast of a truthy value is never the empty string. *)
Lemma castString_truthy (v : jsval) (s : jstring) :
  truthy v = true -> castString v = Some s -> s <> [].
Proof.
  destruct v as [|[]|n|[|c t]|l|m]; simpl; try done.
  - by intros _ [= <-].
  - intros _ [= <-]. apply Number_toString_nonempty.
  - by intros _ [= <-].
  - intros _. destruct (m !! js "_id") as [[| | |[|c t]| |]|]; try done.
    by intros [= <-].
Qed.

Lemma first_truthy_truthy (alternatives : list (option jsval)) (v : jsval) :
  first_truthy alternatives = Some v -> truthy v = true.
Proof.
  induction alternatives as [|a later IH]; [done|]. simpl.
  destruct (truthy_opt a) eqn:Ha; [|exact IH]. intros ->. exact Ha.
Qed.

Lemma string_and_truthy_nonempty (v : option jsval) (s : jstring) :
  string_and_truthy v = Some s -> s <> [].
Proof. destruct v as [[| | |[|c t]| |]|]; simpl; try done. by intros [= <-]. Qed.

Lemma effectiveRole_nonempty (body : jsval) : effectiveRole body <> [].
Proof.
  unfold effectiveRole.
  destruct (string_and_truthy (get body (js "role"))) as [r|] eqn:Hr.
  - by apply string_and_truthy_nonempty in Hr.
  - destruct (string_and_truthy (and_get _ _)) as [r|] eqn:Hm; [|done].
    by apply string_and_truthy_nonempty in Hm.
Qed.

Lemma blank_nil_false (s : jstring) : blank s = false -> s <> [].
Proof. by destruct s. Qed.

(** X16. What a saved chat message looks like.  A call of
    POST /api/chats that answers with a saved message has stored that
    message under its id, and the message has a text that is not blank
    and a role, an id and a teacher id that are not empty.  Its meta is
    the meta of the payload when the payload defines one, and otherwise
    the meta of the message stored under that id before the call, if
    any: the branch that attaches the raw payload to meta is never
    taken.  Without a truthy id in the payload the id is msg_ followed by
    the clock in base 36, and without a truthy timestamp the timestamp is
    the clock. *)
Theorem saved_chat_is_complete (body : jsval) (now : Z)
    (db db' : gmap jstring chat) (doc : chat) :
  post_chats Date_of body now db = (Saved doc, db') ->
  db' = <[id doc := doc]> db
  /\ text doc = resolvedText body /\ blank (text doc) = false
  /\ meta doc = match get body (js "meta") with
                | Some m => Some m
                | None => db !! id doc ≫= meta
                end
  /\ role doc <> [] /\ id doc <> [] /\ teacherId doc <> []
  /\ (truthy_opt (get body (js "id")) = false ->
      id doc = js "msg_" ++ N_toString 36 (Z.to_N now))
  /\ (truthy_opt (get body (js "timestamp")) = false -> timestamp doc = now).
Proof.
  unfold post_chats.
  destruct (effectiveTeacherId body) as [tid|] eqn:Htid; [|done].
  destruct (blank (resolvedText body)) eqn:Hblank; [done|].
  destruct (chat_doc Date_of body tid now) as [d|] eqn:Hdoc; [|done].
  intros [= <- <-]. unfold findOneAndUpdate. cbn [id text meta role teacherId timestamp].
  split; [done|].
  unfold chat_doc in Hdoc.
  pose proof (blank_nil_false _ Hblank) as Htext.
  destruct (resolvedText body) as [|c t] eqn:Hresolved; [done|].
  set (raw_id := match get body (js "id") with
                 | Some i => if truthy i then i
                             else JStr (js "msg_" ++ N_toString 36 (Z.to_N now))
                 | None => JStr (js "msg_" ++ N_toString 36 (Z.to_N now))
                 end) in Hdoc.
  assert (Hraw : truthy raw_id = true).
  { unfold raw_id. destruct (get body (js "id")) as [i|]; [|done].
    by destruct (truthy i) eqn:Hi. }
  destruct (castString raw_id) as [i|] eqn:Hi; [|done].
  destruct (castString tid) as [teacher|] eqn:Hteacher; [|done].
  cbn [mbind option_bind] in Hdoc.
  destruct (match get body (js "timestamp") with
            | Some t0 => if truthy t0 then Date_of t0 else Some now
            | None => Some now
            end) as [stamp|] eqn:Hstamp; [|done].
  injection Hdoc as <-. cbn [id text meta role teacherId timestamp].
  repeat split; try done.
  - apply effectiveRole_nonempty.
  - by apply (castString_truthy raw_id).
  - apply (castString_truthy tid); [|done].
    by apply (first_truthy_truthy _ _ Htid).
  - intros Hid. unfold raw_id in Hi.
    destruct (get body (js "id")) as [x|]; simpl in Hid.
    + rewrite Hid in Hi. by injection Hi as <-.
    + by injection Hi as <-.
  - intros Ht. destruct (get body (js "timestamp")) as [x|]; simpl in Ht.
    + rewrite Ht in Hstamp. by injection Hstamp as <-.
    + by injection Hstamp as <-.
Qed.

(** X17. A teacher's log after a call.  The messages GET /api/chats
    selects for a teacher after a saving call are those it selected
    before with the saved message put under its id, when the message is
    that teacher's; when it is another teacher's, they are those it
    selected before without the message of that id: a call that reuses
    an id takes the message out of the log of the teacher who had it. *)
Theorem teacher_log_after_post (body : jsval) (now : Z)
    (db db' : gmap jstring chat) (doc : chat) (teacher : jstring) :
  post_chats Date_of body now db = (Saved doc, db') ->
  (teacherId doc = teacher ->
   chats_of teacher db' = <[id doc := doc]> (chats_of teacher db))
  /\ (teacherId doc <> teacher ->
      chats_of teacher db' = delete (id doc) (chats_of teacher db)).
Proof.
  intros Hpost.
  pose proof (post_chats_store Date_of body now db) as Hstore.
  rewrite Hpost in Hstore. simpl in Hstore. subst db'.
  unfold chats_of. split; intros Hteacher.
  - by rewrite map_filter_insert_True.
  - rewrite map_filter_insert_False by done. apply map_filter_delete.
Qed.

End ChatFacts.

Section ChatFactsWitnesses.

Import Chats.

(** The payload reuses the id m9 and has no meta: the saved message
    keeps the meta that was stored. *)
Lemma saved_chat_is_complete_witness :
  let doc := {| id := js "m9"; role := js "user"; text := js "again";
                meta := Some (obj [ (js "a", JNum 1) ]); teacherId := js "7";
                timestamp := 2000 |} in
  <[js "m9" := doc]> Samples.tagged_db = <[id doc := doc]> Samples.tagged_db
  /\ text doc = resolvedText Samples.retag /\ blank (text doc) = false
  /\ meta doc = match get Samples.retag (js "meta") with
                | Some m => Some m
                | None => Samples.tagged_db !! id doc ≫= meta
                end
  /\ role doc <> [] /\ id doc <> [] /\ teacherId doc <> []
  /\ (truthy_opt (get Samples.retag (js "id")) = false ->
      id doc = js "msg_" ++ N_toString 36 (Z.to_N 2000))
  /\ (truthy_opt (get Samples.retag (js "timestamp")) = false ->
      timestamp doc = 2000%Z).
Proof.
  cbn zeta.
  apply (saved_chat_is_complete Samples.date_of_number Samples.retag 2000
           Samples.tagged_db).
  by_evaluation.
Defined.

Example generated_chat_id :
  fst (post_chats Samples.date_of_number
         (obj [ (js "content", JStr (js "hello"));
                (js "message", obj [ (js "teacherId", JNum 7) ]) ])
         1730000000000 Samples.chats_db)
  = Saved {| id := js "msg_m2r1bz7k"; role := js "user"; text := js "hello";
             meta := None; teacherId := js "7"; timestamp := 1730000000000 |}.
Proof. by_evaluation. Qed.

Lemma teacher_log_after_post_witness :
  let other := obj [ (js "id", JStr (js "m0")); (js "text", JStr (js "mine now"));
                     (js "teacherId", JStr (js "t2")) ] in
  let db' := snd (post_chats Samples.date_of_number other 2000 Samples.chats_db) in
  chats_of (js "t1") Samples.chats_db !! js "m0" = Some Samples.stored_chat
  /\ chats_of (js "t1") db' = delete (js "m0") (chats_of (js "t1") Samples.chats_db)
  /\ chats_of (js "t1") db' !! js "m0" = None.
Proof.
  set (other := obj [ (js "id", JStr (js "m0")); (js "text", JStr (js "mine now"));
                      (js "teacherId", JStr (js "t2")) ]).
  cbn zeta. split; [by_evaluation|].
  destruct (post_chats Samples.date_of_number other 2000 Samples.chats_db)
    as [[doc| |] db'] eqn:Hpost; try (vm_compute in Hpost; discriminate).
  destruct (teacher_log_after_post Samples.date_of_number other 2000
              Samples.chats_db db' doc (js "t1") Hpost) as [_ Hother].
  assert (Hdoc : Saved doc = fst (post_chats Samples.date_of_number other 2000
                                    Samples.chats_db))
    by (by rewrite Hpost).
  vm_compute in Hdoc. injection Hdoc as ->. cbn [snd].
  assert (Hlog : chats_of (js "t1") db'
                 = delete (js "m0") (chats_of (js "t1") Samples.chats_db)).
  { apply Hother. discriminate. }
  split; [exact Hlog|]. rewrite Hlog. apply lookup_delete_eq.
Defined.

End ChatFactsWitnesses.

(* ================================================================== *)
(** ** Accounts: signup and login                                      *)
(* ================================================================== *)

Section AuthFacts.

Import Auth.

Variable bcrypt_hash : jstring -> jstring -> jstring.
Variable bcrypt_compare : jstring -> jstring -> bool.
Variable jwt_sign : jstring -> jstring -> jstring -> Z -> jstring.

Lemma given_Some (s : option jstring) :
  given s = true -> exists c t, s = Some (c :: t).
Proof. destruct s as [[|c t]|]; try done. intros _. by exists c, t. Qed.

(** X18. Signing up, then logging in.  Provided the password library
    accepts a password against its own hash, a login with the email and
    password of a signup that succeeded is answered with a token for
    that account, signed with the secret of the environment or, when
    none is set, with the built-in one.  The signup succeeded only for
    an email no account had. *)
Theorem signup_then_login (req : request) (oid salt : jstring)
    (db db' : gmap jstring user) (e : jstring) (secret : option jstring)
    (now : Z) :
  (forall p s, bcrypt_compare p (bcrypt_hash p s) = true) ->
  signup bcrypt_hash req oid salt db = (SignedUp e, db') ->
  req_email req = Some e /\ db !! e = None
  /\ login bcrypt_compare jwt_sign req secret now db'
     = LoggedIn
         (jwt_sign e oid (if given secret then default [] secret else js "secret") now)
         oid e.
Proof.
  intros Hlibrary. unfold signup, login.
  destruct (given (req_name req)) eqn:Hname; [|done].
  destruct (given (req_email req)) eqn:Hemail; [|done].
  destruct (given (req_password req)) eqn:Hpassword; [|done].
  cbn [negb orb].
  apply given_Some in Hemail as (c & t & Hemail). rewrite Hemail.
  cbn [default from_option id].
  destruct (db !! (c :: t)) as [existing|] eqn:Hexisting; [done|].
  intros [= <- <-]. split; [done|]. split; [done|].
  rewrite lookup_insert_eq. cbn [password _id email]. by rewrite Hlibrary.
Qed.

(** X19. Signup leaves the accounts alone.  Whatever the request, an
    account that exists before POST /api/signup is stored unchanged after
    it; a request that names the email of an existing account is refused
    with status 400 and changes nothing. *)
Theorem signup_keeps_accounts (req : request) (oid salt : jstring)
    (db : gmap jstring user) (e : jstring) (u : user) :
  db !! e = Some u ->
  snd (signup bcrypt_hash req oid salt db) !! e = Some u
  /\ (req_email req = Some e ->
      exists error,
        signup bcrypt_hash req oid salt db = (Refused 400 error, db)).
Proof.
  intros Hu. unfold signup.
  destruct (negb (given (req_name req)) || negb (given (req_email req))
            || negb (given (req_password req))) eqn:Hmissing.
  - split; [done|]. intros _. by eexists.
  - destruct (db !! default [] (req_email req)) as [existing|] eqn:Hexisting.
    + split; [done|]. intros _. by eexists.
    + cbn [snd]. split.
      * rewrite lookup_insert_ne; [done|]. intros <-. congruence.
      * intros He. rewrite He in Hexisting. simpl in Hexisting. congruence.
Qed.

(** X20. No token without the password.  POST /api/login answers with a
    token only for a request that carries an email and a password, when
    an account is stored under that email and the password library
    accepts the password against the stored hash; the token and the
    reply then name that account. *)
Theorem login_needs_the_password (req : request) (secret : option jstring)
    (now : Z) (db : gmap jstring user) (token i e : jstring) :
  login bcrypt_compare jwt_sign req secret now db = LoggedIn token i e ->
  exists address p u,
    req_email req = Some address /\ address <> []
    /\ req_password req = Some p /\ p <> []
    /\ db !! address = Some u
    /\ bcrypt_compare p (password u) = true
    /\ i = _id u /\ e = email u
    /\ token = jwt_sign (email u) (_id u)
                 (if given secret then default [] secret else js "secret") now.
Proof.
  unfold login.
  destruct (given (req_email req)) eqn:Hemail; [|done].
  destruct (given (req_password req)) eqn:Hpassword; [|done].
  cbn [negb orb].
  apply given_Some in Hemail as (c & t & Hemail).
  apply given_Some in Hpassword as (d & p & Hpassword).
  rewrite Hemail, Hpassword. cbn [default from_option id].
  destruct (db !! (c :: t)) as [u|] eqn:Hu; [|done].
  destruct (bcrypt_compare (d :: p) (password u)) eqn:Hmatch; [|done].
  intros [= <- <- <-]. exists (c :: t), (d :: p), u. repeat split; done.
Qed.

End AuthFacts.

Section AuthWitnesses.

Import Auth AuthSamples.

Lemma sample_compare_hash (p s : jstring) : sample_compare p (sample_hash p s) = true.
Proof.
  unfold sample_compare, sample_hash. apply bool_decide_eq_true.
  rewrite length_app, Nat.add_sub. apply drop_app_length.
Qed.

Lemma signup_then_login_witness :
  req_email ada = Some (js "ada@x.com")
  /\ (∅ : gmap jstring user) !! js "ada@x.com" = None
  /\ login sample_compare sample_sign ada None 1000
       (snd (signup sample_hash ada (js "u1") (js "salt.") ∅))
     = LoggedIn (js "ada@x.com.u1.secret.1000") (js "u1") (js "ada@x.com").
Proof.
  apply (signup_then_login sample_hash sample_compare sample_sign ada (js "u1")
           (js "salt.") ∅ (snd (signup sample_hash ada (js "u1") (js "salt.") ∅))
           (js "ada@x.com") None 1000).
  - exact sample_compare_hash.
  - by_evaluation.
Defined.

Lemma signup_keeps_accounts_witness :
  snd (signup sample_hash ada (js "u2") (js "pepper.") accounts) !! js "ada@x.com"
  = accounts !! js "ada@x.com"
  /\ (req_email ada = Some (js "ada@x.com") ->
      exists error,
        signup sample_hash ada (js "u2") (js "pepper.") accounts
        = (Refused 400 error, accounts)).
Proof.
  apply (signup_keeps_accounts sample_hash ada (js "u2") (js "pepper.") accounts
           (js "ada@x.com")).
  by_evaluation.
Defined.

Lemma login_needs_the_password_witness :
  exists address p u,
    req_email ada = Some address /\ address <> []
    /\ req_password ada = Some p /\ p <> []
    /\ accounts !! address = Some u
    /\ sample_compare p (password u) = true
    /\ js "u1" = _id u /\ js "ada@x.com" = email u
    /\ js "ada@x.com.u1.k.1000"
       = sample_sign (email u) (_id u)
           (if given (Some (js "k")) then default [] (Some (js "k")) else js "secret")
           1000.
Proof.
  apply (login_needs_the_password sample_compare sample_sign ada (Some (js "k")) 1000
           accounts (js "ada@x.com.u1.k.1000") (js "u1") (js "ada@x.com")).
  by_evaluation.
Defined.

Example login_refusals :
  login sample_compare sample_sign
    {| req_name := None; req_email := Some (js "ada@x.com");
       req_password := Some (js "guess") |} None 1000 accounts
  = Refused 400 (js "Invalid password.")
  /\ login sample_compare sample_sign
       {| req_name := None; req_email := Some (js "bob@x.com");
          req_password := Some (js "s3cret") |} None 1000 accounts
     = Refused 400 (js "User not found.")
  /\ login sample_compare sample_sign
       {| req_name := None; req_email := Some (js "ada@x.com");
          req_password := Some [] |} None 1000 accounts
     = Refused 400 (js "Email and password required.").
Proof. repeat split; by_evaluation. Qed.

End AuthWitnesses.

(* ================================================================== *)
(** ** The earlier parse step against parseJsonLenient                 *)
(* ================================================================== *)

Section LegacyFacts.

Import Normalizer.

Variable JSON_parse : jstring -> option jsval.

(** X21. The lenient parser accepts what the earlier parse step did.
    For a non-empty answer that the parse step of the earlier server
    module turns into a value, parseJsonLenient returns that same value,
    or else, the direct parse having failed, the value of an earlier
    strategy of its own: the parse of the answer without its code fences
    or of its brace block.  It never answers null for want of a
    candidate. *)
Theorem lenient_parse_covers_the_earlier_step (text : jstring) (v : jsval) :
  text <> [] ->
  Legacy.parse_answer JSON_parse text = Some v ->
  parseJsonLenient JSON_parse text = v
  \/ JSON_parse text = None
     /\ exists candidate,
          (candidate = stripCodeFences text \/ brace_block text = Some candidate)
          /\ JSON_parse candidate = Some (parseJsonLenient JSON_parse text).
Proof.
  intros Htext. unfold Legacy.parse_answer, parseJsonLenient, parseJsonLenient_steps.
  destruct text as [|c t]; [done|]. clear Htext.
  generalize (c :: t). intros text.
  destruct (JSON_parse text) as [direct|] eqn:Hdirect.
  { intros [= <-]. by left. }
  destruct (JSON_parse (stripCodeFences text)) as [unfenced|] eqn:Hunfenced.
  { intros _. right. split; [done|]. exists (stripCodeFences text). split; [by left|done]. }
  destruct (brace_block text) as [candidate|] eqn:Hblock.
  - destruct (JSON_parse candidate) as [block|] eqn:Hparse.
    + intros _. right. split; [done|]. exists candidate. split; [by right|done].
    + destruct (json_fence text) as [m1|]; [|done].
      destruct (JSON_parse m1); [|done]. intros [= <-]. by left.
  - destruct (json_fence text) as [m1|]; [|done].
    destruct (JSON_parse m1); [|done]. intros [= <-]. by left.
Qed.

End LegacyFacts.

Section LegacyWitness.

Import Normalizer.

Lemma lenient_parse_covers_the_earlier_step_witness :
  let text := jsq "{'a':1} then ```json [2] ``` ." in
  Legacy.parse_answer JsonRef.JSON_parse text = Some (JArr [JNum 2])
  /\ parseJsonLenient JsonRef.JSON_parse text = obj [(js "a", JNum 1)]
  /\ (parseJsonLenient JsonRef.JSON_parse text = JArr [JNum 2]
      \/ JsonRef.JSON_parse text = None
         /\ exists candidate,
              (candidate = stripCodeFences text \/ brace_block text = Some candidate)
              /\ JsonRef.JSON_parse candidate
                 = Some (parseJsonLenient JsonRef.JSON_parse text)).
Proof.
  cbn zeta. split; [by_evaluation|]. split; [by_evaluation|].
  apply (lenient_parse_covers_the_earlier_step JsonRef.JSON_parse
           (jsq "{'a':1} then ```json [2] ``` .") (JArr [JNum 2])).
  - discriminate.
  - by_evaluation.
Defined.

End LegacyWitness.
